(** * To-do list: the todo service and its page controller

    A shallow embedding of [script.js]: the [Todo] class, the
    [TodoService] class (the collection, its persistence in
    [localStorage], id generation) and the [DOMManipulator] class (the click
    and change handlers, the sort direction).

    JavaScript objects and arrays are references into a heap: a [Todo] held
    by two arrays is one object, and an assignment to its [title] shows
    through both.  Methods are computations in a state-and-exception monad
    over that heap. *)

From Stdlib Require Import ZArith Ascii Decimal DecimalN Sorted.
From stdpp Require Import base option list strings gmap.

Local Open Scope string_scope.
Local Open Scope Z_scope.
Local Open Scope list_scope.

(** ** Strings

    A string is a sequence of code units; the model keeps the code units
    [0..255].  [trim] and [toUpperCase] are the built-ins of
    [String.prototype] on the strings of that range; the result of
    [toUpperCase] can leave the range, and [>] compares sequences of code
    units of any value. *)

Module JSString.

(** WhiteSpace and LineTerminator code units below 256: TAB, LF, VT, FF,
    CR, SP, NBSP. *)
Definition isWhiteSpace (c : ascii) : bool :=
  let n := N_of_ascii c in
  (((9 <=? n) && (n <=? 13)) || (n =? 32) || (n =? 160))%N.

Fixpoint trimStart (s : string) : string :=
  match s with
  | EmptyString => EmptyString
  | String c s' => if isWhiteSpace c then trimStart s' else s
  end.

Definition trimEnd (s : string) : string :=
  String.rev (trimStart (String.rev s)).

Definition trim (s : string) : string := trimEnd (trimStart s).

(** The capital of a code unit below 256 need not be below 256: an
    upper-cased string is kept as its code units, whatever their value. *)
Definition code_units : Type := list N.

(** Upper-casing of one code unit: [a-z] and the Latin-1 letters
    [U+00E0..U+00FE] (the division sign aside) lose 32; the micro sign
    [U+00B5] becomes [U+039C], y with diaeresis [U+00FF] becomes [U+0178],
    and sharp s [U+00DF] becomes [SS].  Every other code unit below 256 is
    its own capital. *)
Definition toUpperCaseUnit (c : ascii) : code_units :=
  let n := N_of_ascii c in
  (if (97 <=? n) && (n <=? 122) then [n - 32]
   else if n =? 181 then [924]
   else if n =? 223 then [83; 83]
   else if (224 <=? n) && (n <=? 254) && negb (n =? 247) then [n - 32]
   else if n =? 255 then [376]
   else [n])%N.

Fixpoint toUpperCase (s : string) : code_units :=
  match s with
  | EmptyString => []
  | String c s' => toUpperCaseUnit c ++ toUpperCase s'
  end.

(** The comparison of two strings: the first code unit that differs decides,
    and a proper prefix comes first. *)
Fixpoint compare (s1 s2 : code_units) : comparison :=
  match s1, s2 with
  | [], [] => Eq
  | [], _ :: _ => Lt
  | _ :: _, [] => Gt
  | a :: s1', b :: s2' =>
      match (a ?= b)%N with
      | Eq => compare s1' s2'
      | c => c
      end
  end.

(** [s1 > s2]. *)
Definition gt (s1 s2 : code_units) : bool :=
  match compare s1 s2 with Gt => true | _ => false end.

(** ToBoolean on a string: only the empty string is falsy. *)
Definition truthy (s : string) : bool :=
  match s with EmptyString => false | String _ _ => true end.

End JSString.

(** ** Errors and completions *)

(** The exceptions of the program.  The script throws [Error] objects that
    differ in their message only; here each [throw] statement has its
    constructor, and [message] gives the text:
    - [DuplicateEmptyEntry]: thrown by [addTodo];
    - [EmptyTitle]: thrown by [editTodo];
    - [NotFound id]: thrown by [_getIndex];
    - [ElementMissing selector]: thrown by [_getElement];
    - [TypeError]: a property access on something that is not an object;
    - [SyntaxError]: thrown by [JSON.parse]. *)
Inductive Error : Type :=
  | DuplicateEmptyEntry
  | EmptyTitle
  | NotFound (i : Z)
  | ElementMissing (selector : string)
  | TypeError
  | SyntaxError.

Inductive Completion (A : Type) : Type :=
  | Normal (a : A)
  | Throw (e : Error).
Arguments Normal {A} a.
Arguments Throw {A} e.

(** ** The Todo class *)

Record Todo : Type := mkTodo { id : Z; title : string }.

Global Instance Todo_eq_dec : EqDecision Todo.
Proof. solve_decision. Defined.

(** [new Todo(id, title)]; [title] defaults to the empty string. *)
Definition Todo_new (i : Z) (t : string) : Todo :=
  {| id := i; title := JSString.trim t |}.

(** ** JSON text of a Todo array *)

Module JSON.

Definition dquote : ascii := "034"%char.
Definition backslash : ascii := "092"%char.

(** *** Numbers: the decimal digits of an integer

    An id is a Number; the model keeps the integers.  [number_to_string]
    writes an integer in decimal digits, as [JSON.stringify] does below
    [10^21] in magnitude, and [read_number] gives the integer a text denotes,
    which is the Number [JSON.parse] gives when it is a safe integer. *)

Fixpoint uint_to_string (u : uint) : string :=
  match u with
  | Nil => ""
  | D0 u => String "0" (uint_to_string u)
  | D1 u => String "1" (uint_to_string u)
  | D2 u => String "2" (uint_to_string u)
  | D3 u => String "3" (uint_to_string u)
  | D4 u => String "4" (uint_to_string u)
  | D5 u => String "5" (uint_to_string u)
  | D6 u => String "6" (uint_to_string u)
  | D7 u => String "7" (uint_to_string u)
  | D8 u => String "8" (uint_to_string u)
  | D9 u => String "9" (uint_to_string u)
  end.

Definition number_to_string (z : Z) : string :=
  match z with
  | Z0 => "0"
  | Zpos p => uint_to_string (Pos.to_uint p)
  | Zneg p => String "-" (uint_to_string (Pos.to_uint p))
  end.

(** The longest prefix of digits, and what follows it. *)
Fixpoint read_uint (s : string) : uint * string :=
  match s with
  | String "0" s' => let '(u, r) := read_uint s' in (D0 u, r)
  | String "1" s' => let '(u, r) := read_uint s' in (D1 u, r)
  | String "2" s' => let '(u, r) := read_uint s' in (D2 u, r)
  | String "3" s' => let '(u, r) := read_uint s' in (D3 u, r)
  | String "4" s' => let '(u, r) := read_uint s' in (D4 u, r)
  | String "5" s' => let '(u, r) := read_uint s' in (D5 u, r)
  | String "6" s' => let '(u, r) := read_uint s' in (D6 u, r)
  | String "7" s' => let '(u, r) := read_uint s' in (D7 u, r)
  | String "8" s' => let '(u, r) := read_uint s' in (D8 u, r)
  | String "9" s' => let '(u, r) := read_uint s' in (D9 u, r)
  | _ => (Nil, s)
  end.

(** The digits of a JSON number: one digit at least, and no zero before
    another digit. *)
Definition read_nat (s : string) : option (N * string) :=
  match read_uint s with
  | (Nil, _) => None
  | (u, r) => if uint_eq_dec (unorm u) u then Some (N.of_uint u, r) else None
  end.

(** An integer, with its sign when it is negative.  Minus zero is no
    integer: the model does not read it. *)
Definition read_number (s : string) : option (Z * string) :=
  match s with
  | String "-" s' =>
      match read_nat s' with
      | Some (Npos p, r) => Some (Zneg p, r)
      | _ => None
      end
  | _ =>
      match read_nat s with
      | Some (n, r) => Some (Z.of_N n, r)
      | None => None
      end
  end.

(** *** Strings: QuoteJSONString and its inverse *)

Definition hex_digit (n : N) : ascii :=
  match n with
  | 0 => "0" | 1 => "1" | 2 => "2" | 3 => "3" | 4 => "4" | 5 => "5"
  | 6 => "6" | 7 => "7" | 8 => "8" | 9 => "9" | 10 => "a" | 11 => "b"
  | 12 => "c" | 13 => "d" | 14 => "e" | _ => "f"
  end%N%char.

Definition hex_value (c : ascii) : option N :=
  let n := N_of_ascii c in
  if ((48 <=? n) && (n <=? 57))%N then Some (n - 48)%N
  else if ((97 <=? n) && (n <=? 102))%N then Some (n - 87)%N
  else if ((65 <=? n) && (n <=? 70))%N then Some (n - 55)%N
  else None.

(** One code unit inside a JSON string literal. *)
Definition quote_unit (c : ascii) : string :=
  if decide (c = dquote) then String backslash (String dquote "")
  else if decide (c = backslash) then String backslash (String backslash "")
  else match N_of_ascii c with
       | 8 => String backslash "b"
       | 9 => String backslash "t"
       | 10 => String backslash "n"
       | 12 => String backslash "f"
       | 13 => String backslash "r"
       | n => if (n <? 32)%N
              then String backslash
                     (String "u" (String "0" (String "0"
                        (String (hex_digit (n / 16))
                           (String (hex_digit (n mod 16)) "")))))
              else String c ""
       end%N.

Fixpoint quote_units (s : string) : string :=
  match s with
  | EmptyString => EmptyString
  | String c s' => quote_unit c +:+ quote_units s'
  end.

Definition quote (s : string) : string :=
  String dquote (quote_units s +:+ String dquote "").

(** The code unit an escape [\uXXXX] stands for, when it is below 256. *)
Definition unicode_escape (a b c d : ascii) : option ascii :=
  match hex_value a, hex_value b, hex_value c, hex_value d with
  | Some 0%N, Some 0%N, Some h, Some l => Some (ascii_of_N (16 * h + l))
  | _, _, _, _ => None
  end.

(** Reads a string literal after its opening quote: the string and the
    text after the closing quote. *)
Fixpoint read_units (s : string) : option (string * string) :=
  match s with
  | EmptyString => None
  | String c s' =>
      if decide (c = dquote) then Some ("", s')
      else if decide (c = backslash) then
        match s' with
        | String e s'' =>
            let continue (x : ascii) (r : string) :=
              match read_units r with
              | Some (t, r') => Some (String x t, r')
              | None => None
              end in
            if decide (e = dquote) then continue dquote s''
            else if decide (e = backslash) then continue backslash s''
            else match e with
                 | "/" => continue "/" s''
                 | "b" => continue "008" s''
                 | "t" => continue "009" s''
                 | "n" => continue "010" s''
                 | "f" => continue "012" s''
                 | "r" => continue "013" s''
                 | "u" =>
                     match s'' with
                     | String h1 (String h2 (String h3 (String h4 r))) =>
                         match unicode_escape h1 h2 h3 h4 with
                         | Some x => continue x r
                         | None => None
                         end
                     | _ => None
                     end
                 | _ => None
                 end%char
        | EmptyString => None
        end
      else if (N_of_ascii c <? 32)%N then None
      else match read_units s' with
           | Some (t, r) => Some (String c t, r)
           | None => None
           end
  end.

Definition read_string (s : string) : option (string * string) :=
  match s with
  | String c s' => if decide (c = dquote) then read_units s' else None
  | EmptyString => None
  end.

(** [expect p s]: [s] without its prefix [p]. *)
Fixpoint expect (p s : string) : option string :=
  match p, s with
  | EmptyString, _ => Some s
  | String a p', String b s' => if decide (a = b) then expect p' s' else None
  | String _ _, EmptyString => None
  end.

(** *** Objects and arrays *)

Definition id_key : string := String dquote ("id" +:+ String dquote ":").
Definition title_key : string := String dquote ("title" +:+ String dquote ":").

Definition stringify_object (t : Todo) : string :=
  "{" +:+ id_key +:+ number_to_string (id t) +:+ ","
      +:+ title_key +:+ quote (title t) +:+ "}".

Fixpoint stringify_elements (l : list Todo) : string :=
  match l with
  | [] => ""
  | [t] => stringify_object t
  | t :: l' => stringify_object t +:+ "," +:+ stringify_elements l'
  end.

(** [JSON.stringify] of an array of Todo objects. *)
Definition stringify (l : list Todo) : string :=
  "[" +:+ stringify_elements l +:+ "]".

Definition read_object (s : string) : option (Todo * string) :=
  s1 ← expect ("{" +:+ id_key) s;
  '(i, s2) ← read_number s1;
  s3 ← expect ("," +:+ title_key) s2;
  '(t, s4) ← read_string s3;
  s5 ← expect "}" s4;
  Some (mkTodo i t, s5).

(** The elements of an array after the first bracket; [fuel] bounds the
    number of elements. *)
Fixpoint read_elements (fuel : nat) (s : string) : option (list Todo) :=
  match fuel with
  | O => None
  | S fuel' =>
      '(t, r) ← read_object s;
      match r with
      | String "," r' => l ← read_elements fuel' r'; Some (t :: l)
      | String "]" EmptyString => Some [t]
      | _ => None
      end
  end.

(** [JSON.parse] on the text of a Todo array: the form [JSON.stringify]
    writes, where any escape sequence of JSON may stand for a code unit.
    Texts of another form (white space between tokens, other members, other
    values) are outside the model, which answers [None] for them as for a
    text that is not JSON. *)
Definition parse (s : string) : option (list Todo) :=
  match s with
  | String "[" (String "]" EmptyString) => Some []
  | String "[" r => read_elements (String.length r) r
  | _ => None
  end.

End JSON.

(** [error.message].  The texts of [TypeError] and [SyntaxError] are the
    engine's own; their names stand for them. *)
Definition message (e : Error) : string :=
  match e with
  | DuplicateEmptyEntry => "There is empty element in todo list"
  | EmptyTitle => "You can not empty title."
  | NotFound i => "There are no such todo with " +:+ JSON.number_to_string i +:+ " id."
  | ElementMissing selector => "There are no such element : " +:+ selector +:+ "."
  | TypeError => "TypeError"
  | SyntaxError => "SyntaxError"
  end.

(** ** Computations: state and exceptions

    A computation takes the state, completes normally with a value or
    abruptly with an exception, and leaves a state either way: what was
    written before a [throw] stays written. *)

Definition Eff (S A : Type) : Type := S → Completion A * S.

Definition ret {S A : Type} (a : A) : Eff S A := λ σ, (Normal a, σ).

Definition bind {S A B : Type} (m : Eff S A) (k : A → Eff S B) : Eff S B :=
  λ σ, match m σ with
       | (Normal a, σ') => k a σ'
       | (Throw e, σ') => (Throw e, σ')
       end.

Definition throw {S A : Type} (e : Error) : Eff S A := λ σ, (Throw e, σ).

Definition try_catch {S A : Type} (m : Eff S A) (h : Error → Eff S A) : Eff S A :=
  λ σ, match m σ with
       | (Normal a, σ') => (Normal a, σ')
       | (Throw e, σ') => h e σ'
       end.

Notation "'let*' x ':=' m 'in' k" := (bind m (λ x, k))
  (at level 10, x name, m at level 100, k at level 200).

Definition when {S : Type} (b : bool) (m : Eff S unit) : Eff S unit :=
  if b then m else ret tt.

(** ** The heap, the storage and the service's field *)

Definition loc : Type := nat.

Definition TODOS : string := "TODOS".

Record State : Type := mkState {
  objects : list Todo;               (* the Todo objects; a reference is an index *)
  arrays : list (list loc);          (* the arrays of references to them *)
  localStorage : gmap string string; (* window.localStorage *)
  _todos : loc;                      (* this._todos of the TodoService *)
}.

Definition set_objects (h : list Todo) (σ : State) : State :=
  mkState h (arrays σ) (localStorage σ) (_todos σ).
Definition set_arrays (h : list (list loc)) (σ : State) : State :=
  mkState (objects σ) h (localStorage σ) (_todos σ).
Definition set_localStorage (m : gmap string string) (σ : State) : State :=
  mkState (objects σ) (arrays σ) m (_todos σ).
Definition set__todos (a : loc) (σ : State) : State :=
  mkState (objects σ) (arrays σ) (localStorage σ) a.

(** The references [refs], each with the object it points to. *)
Definition deref_all (objs : list Todo) (refs : list loc) : option (list (loc * Todo)) :=
  mapM (λ r, pair r <$> objs !! r) refs.

(** The elements of array [a], each reference with the object it points to. *)
Definition elements_in (σ : State) (a : loc) : option (list (loc * Todo)) :=
  refs ← arrays σ !! a;
  deref_all (objects σ) refs.

(** The collection: the objects of [this._todos], in order. *)
Definition todos (σ : State) : option (list Todo) :=
  map snd <$> elements_in σ (_todos σ).

(** *** Heap operations *)

Definition new_object (t : Todo) : Eff State loc :=
  λ σ, (Normal (length (objects σ)), set_objects (objects σ ++ [t]) σ).

Definition new_array (refs : list loc) : Eff State loc :=
  λ σ, (Normal (length (arrays σ)), set_arrays (arrays σ ++ [refs]) σ).

Definition get_array (a : loc) : Eff State (list loc) :=
  λ σ, match arrays σ !! a with
       | Some refs => (Normal refs, σ)
       | None => (Throw TypeError, σ)
       end.

Definition set_array (a : loc) (refs : list loc) : Eff State unit :=
  λ σ, (Normal tt, set_arrays (<[a := refs]> (arrays σ)) σ).

Definition elements (a : loc) : Eff State (list (loc * Todo)) :=
  λ σ, match elements_in σ a with
       | Some ts => (Normal ts, σ)
       | None => (Throw TypeError, σ)
       end.

Definition get_object (r : loc) : Eff State Todo :=
  λ σ, match objects σ !! r with
       | Some t => (Normal t, σ)
       | None => (Throw TypeError, σ)
       end.

(** [r.title = s]. *)
Definition set_title (r : loc) (s : string) : Eff State unit :=
  let* t := get_object r in
  λ σ, (Normal tt, set_objects (<[r := {| id := id t; title := s |}]> (objects σ)) σ).

Definition this_todos : Eff State loc := λ σ, (Normal (_todos σ), σ).

(** [this._todos = a]. *)
Definition assign__todos (a : loc) : Eff State unit :=
  λ σ, (Normal tt, set__todos a σ).

Definition localStorage_getItem (k : string) : Eff State (option string) :=
  λ σ, (Normal (localStorage σ !! k), σ).

Definition localStorage_setItem (k v : string) : Eff State unit :=
  λ σ, (Normal tt, set_localStorage (<[k := v]> (localStorage σ)) σ).

(** *** Array.prototype *)

(** [[...a]]. *)
Definition Array_spread (a : loc) : Eff State loc :=
  let* refs := get_array a in new_array refs.

Definition Array_length (a : loc) : Eff State nat :=
  let* refs := get_array a in ret (length refs).

(** [a.some(p)]. *)
Definition Array_some (p : Todo → bool) (a : loc) : Eff State bool :=
  let* ts := elements a in ret (existsb (λ rt, p rt.2) ts).

(** [a.filter(p)]: a new array. *)
Definition Array_filter (p : Todo → bool) (a : loc) : Eff State loc :=
  let* ts := elements a in new_array (map fst (List.filter (λ rt, p rt.2) ts)).

(** [a.findIndex(p)]: the first index whose element satisfies [p], or -1. *)
Definition Array_findIndex (p : Todo → bool) (a : loc) : Eff State Z :=
  let* ts := elements a in
  ret (match list_find (λ rt, p rt.2 = true) ts with
       | Some (i, _) => Z.of_nat i
       | None => -1
       end).

(** The order [sort] leaves.  The algorithm is the engine's; the model is an
    insertion sort: every element, from left to right, is put before the first
    element of the part already sorted that the comparison function places
    it before (a negative result).  With a comparison function that never
    answers zero, as the one of [sortTodos], the place of Todos with equal
    keys depends on this choice, and no statement below depends on it. *)
Fixpoint insert_by {A : Type} (cmp : A → A → Z) (x : A) (l : list A) : list A :=
  match l with
  | [] => [x]
  | y :: l' => if cmp x y <? 0 then x :: y :: l' else y :: insert_by cmp x l'
  end.

Definition sort_by {A : Type} (cmp : A → A → Z) (l : list A) : list A :=
  foldl (λ acc x, insert_by cmp x acc) [] l.

(** [a.sort(cmp)]: sorts [a] in place and returns it. *)
Definition Array_sort (cmp : Todo → Todo → Z) (a : loc) : Eff State loc :=
  let* ts := elements a in
  let* _ := set_array a (map fst (sort_by (λ x y, cmp x.2 y.2) ts)) in
  ret a.

(** [a.reverse()]: reverses [a] in place and returns it. *)
Definition Array_reverse (a : loc) : Eff State loc :=
  let* refs := get_array a in
  let* _ := set_array a (rev refs) in
  ret a.

(** [a[i]] where an object is expected. *)
Definition Array_get (a : loc) (i : Z) : Eff State loc :=
  let* refs := get_array a in
  match (if 0 <=? i then refs !! Z.to_nat i else None) with
  | Some r => ret r
  | None => throw TypeError
  end.

(** ** TodoService *)

(** [_commit()]. *)
Definition _commit : Eff State unit :=
  let* a := this_todos in
  let* ts := elements a in
  localStorage_setItem TODOS (JSON.stringify (map snd ts)).

(** The array and the objects [JSON.parse] builds, all new. *)
Fixpoint new_objects (l : list Todo) : Eff State (list loc) :=
  match l with
  | [] => ret []
  | t :: l' =>
      let* r := new_object t in
      let* rs := new_objects l' in
      ret (r :: rs)
  end.

Definition JSON_parse (text : string) : Eff State loc :=
  match JSON.parse text with
  | Some l => let* rs := new_objects l in new_array rs
  | None => throw SyntaxError
  end.

(** [item || d], where [item] is a string or [null]. *)
Definition or_else (item : option string) (d : string) : string :=
  match item with
  | Some s => if JSString.truthy s then s else d
  | None => d
  end.

(** [_init()]. *)
Definition _init : Eff State unit :=
  let* item := localStorage_getItem TODOS in
  let* a := JSON_parse (or_else item "[]") in
  assign__todos a.

(** [new TodoService(todos)]; without an argument, [todos] is a new empty
    array. *)
Definition TodoService_new (todos : option loc) : Eff State unit :=
  let* todos := match todos with
                | Some a => ret a
                | None => new_array []
                end in
  let* _ := _init in
  let* a := this_todos in
  let* n := Array_length a in
  when (n =? 0)%nat
    (let* _ := assign__todos todos in
     _commit).

(** [getTodos()]. *)
Definition getTodos : Eff State loc :=
  let* a := this_todos in
  Array_spread a.

(** [_generateId()].  The sum [id t + 1] is the integer sum: it is the
    code's sum of Numbers as long as the greatest id is a safe integer. *)
Definition _generateId : Eff State Z :=
  let* a := this_todos in
  let* n := Array_length a in
  if negb (n =? 0)%nat then
    let* c := Array_spread a in
    let* s := Array_sort (λ t1 t2, id t2 - id t1) c in
    let* r := Array_get s 0 in
    let* t := get_object r in
    ret (id t + 1)
  else ret 1.

(** [addTodo(title)]; [title] defaults to the empty string. *)
Definition addTodo (title_ : string) : Eff State unit :=
  let* a := this_todos in
  let* b := Array_some (λ t, negb (JSString.truthy (title t))) a in
  if negb b then
    let* refs := get_array a in
    let* i := _generateId in
    let* r := new_object (Todo_new i title_) in
    let* a' := new_array (refs ++ [r]) in
    let* _ := assign__todos a' in
    _commit
  else throw DuplicateEmptyEntry.

(** [_getIndex(id)]. *)
Definition _getIndex (i : Z) : Eff State Z :=
  let* a := this_todos in
  let* index := Array_findIndex (λ t, bool_decide (id t = i)) a in
  if negb (index =? -1) then ret index
  else throw (NotFound i).

(** [editTodo(id, title)]. *)
Definition editTodo (i : Z) (title_ : string) : Eff State unit :=
  if negb (JSString.truthy title_) then throw EmptyTitle
  else
    let* a := this_todos in
    let* todos := Array_spread a in
    let* index := _getIndex i in
    let* r := Array_get todos index in
    let* _ := set_title r (JSString.trim title_) in
    let* _ := assign__todos todos in
    _commit.

(** [deleteTodo(id)]. *)
Definition deleteTodo (i : Z) : Eff State unit :=
  let* a := this_todos in
  let* a' := Array_filter (λ t, negb (bool_decide (id t = i))) a in
  let* _ := assign__todos a' in
  _commit.

(** The comparison function of [sortTodos]. *)
Definition compare_titles (t1 t2 : Todo) : Z :=
  if JSString.gt (JSString.toUpperCase (title t1)) (JSString.toUpperCase (title t2))
  then 1 else -1.

(** [sortTodos(direction)]; [direction] defaults to [true]. *)
Definition sortTodos (direction : bool) : Eff State unit :=
  let* a := this_todos in
  let* c := Array_spread a in
  let* f := Array_filter (λ t, JSString.truthy (title t)) c in
  let* todos := Array_sort compare_titles f in
  let* _ := when (negb direction) (let* _ := Array_reverse todos in ret tt) in
  let* _ := assign__todos todos in
  _commit.

(** An array literal of object literals: [[{id: .., title: ..}, ..]]. *)
Definition array_literal (l : list Todo) : Eff State loc :=
  let* rs := new_objects l in new_array rs.

(** ** DOMManipulator *)

(** The page: the service's state, the sort direction of the
    [DOMManipulator] and what it touches of the document.  The fields
    [_todoList], [_addBtn] and [_sortBtn] hold the elements the three
    selectors name, and are not kept apart from them. *)
Record Page : Type := mkPage {
  store : State;
  document : list string;          (* the selectors querySelector resolves *)
  _sortDir : bool;                 (* this._sortDir *)
  sortButtonSrc : string;          (* the src attribute of #sort-button *)
  todoList : list (Z * string);    (* the items of #todo-list: the id their
                                      handlers are bound to, the input's value *)
  alerts : list string;            (* the messages shown by alert, oldest first *)
  listeners : list string;         (* the buttons, by selector, in the order
                                      [_init] gave them their click listener *)
}.

Definition set_store (σ : State) (p : Page) : Page :=
  mkPage σ (document p) (_sortDir p) (sortButtonSrc p) (todoList p) (alerts p)
         (listeners p).
Definition set__sortDir (b : bool) (p : Page) : Page :=
  mkPage (store p) (document p) b (sortButtonSrc p) (todoList p) (alerts p)
         (listeners p).
Definition set_sortButtonSrc (s : string) (p : Page) : Page :=
  mkPage (store p) (document p) (_sortDir p) s (todoList p) (alerts p)
         (listeners p).
Definition set_todoList (l : list (Z * string)) (p : Page) : Page :=
  mkPage (store p) (document p) (_sortDir p) (sortButtonSrc p) l (alerts p)
         (listeners p).
Definition set_alerts (l : list string) (p : Page) : Page :=
  mkPage (store p) (document p) (_sortDir p) (sortButtonSrc p) (todoList p) l
         (listeners p).
Definition set_listeners (l : list string) (p : Page) : Page :=
  mkPage (store p) (document p) (_sortDir p) (sortButtonSrc p) (todoList p)
         (alerts p) l.

(** A call into [this._service]. *)
Definition service {A : Type} (m : Eff State A) : Eff Page A :=
  λ p, let '(c, σ) := m (store p) in (c, set_store σ p).

Definition this_sortDir : Eff Page bool := λ p, (Normal (_sortDir p), p).

(** [this._sortDir = b]. *)
Definition assign__sortDir (b : bool) : Eff Page unit :=
  λ p, (Normal tt, set__sortDir b p).

(** [document.querySelector(selector)]: whether it finds an element. *)
Definition querySelector (selector : string) : Eff Page bool :=
  λ p, (Normal (bool_decide (selector ∈ document p)), p).

(** [_getElement(selector)]. *)
Definition _getElement (selector : string) : Eff Page unit :=
  let* element := querySelector selector in
  if element then ret tt
  else throw (ElementMissing selector).

(** [displayTodos()]. *)
Definition displayTodos : Eff Page unit :=
  let* a := service getTodos in
  let* ts := service (elements a) in
  λ p, (Normal tt, set_todoList (map (λ rt, (id rt.2, title rt.2)) ts) p).

Definition alert (msg : string) : Eff Page unit :=
  λ p, (Normal tt, set_alerts (alerts p ++ [msg]) p).

(** [_showError(message)]. *)
Definition _showError (msg : string) : Eff Page unit :=
  let* _ := alert msg in
  displayTodos.

(** [_handleEdit(id, title)]. *)
Definition _handleEdit (i : Z) (title_ : string) : Eff Page unit :=
  try_catch
    (let* _ := service (editTodo i title_) in
     displayTodos)
    (λ error, _showError (message error)).

(** [_handleAdd()]. *)
Definition _handleAdd : Eff Page unit :=
  try_catch
    (let* _ := service (addTodo "") in
     let* _ := assign__sortDir true in
     displayTodos)
    (λ error, _showError (message error)).

(** [_handleDelete(id)]. *)
Definition _handleDelete (i : Z) : Eff Page unit :=
  let* _ := service (deleteTodo i) in
  displayTodos.

(** [_handleSort()]. *)
Definition _handleSort : Eff Page unit :=
  let* d := this_sortDir in
  let* _ := service (sortTodos d) in
  let* _ := assign__sortDir (negb d) in
  let* buttonChange := querySelector "#sort-button" in
  let* d' := this_sortDir in
  let* _ := (if buttonChange
             then λ p, (Normal tt,
                        set_sortButtonSrc
                          (if d' then "./img/blackdown.svg" else "./img/blackup.svg") p)
             else throw TypeError) in
  displayTodos.

(** [button.addEventListener("click", ..)] on the button [_getElement] found
    for [selector].  The listener [_init] gives the add button calls
    [_handleAdd], the one it gives the sort button calls [_handleSort]. *)
Definition addEventListener (selector : string) : Eff Page unit :=
  λ p, (Normal tt, set_listeners (listeners p ++ [selector]) p).

(** [DOMManipulator._init()]; the listeners it registers are the
    handlers that [dispatch] runs. *)
Definition DOMManipulator_init : Eff Page unit :=
  let* _ := _getElement "#todo-list" in
  let* _ := _getElement "#add-button" in
  let* _ := addEventListener "#add-button" in
  let* _ := _getElement "#sort-button" in
  let* _ := addEventListener "#sort-button" in
  let* _ := assign__sortDir true in
  displayTodos.

(** The last line of the script:
    [new DOMManipulator(new TodoService([{ id: 1, title: "" }]))]. *)
Definition main : Eff Page unit :=
  let* seed := service (array_literal [mkTodo 1 ""]) in
  let* _ := service (TodoService_new (Some seed)) in
  DOMManipulator_init.

(** What the user does on the page, and the listener each runs. *)
Inductive Gesture : Type :=
  | ClickAdd
  | ClickSort
  | ChangeInput (i : Z) (value : string)
  | ClickDelete (i : Z).

Definition dispatch (g : Gesture) : Eff Page unit :=
  match g with
  | ClickAdd => _handleAdd
  | ClickSort => _handleSort
  | ChangeInput i value => _handleEdit i value
  | ClickDelete i => _handleDelete i
  end.

(** A listener's exception ends that listener; the page goes on with the
    state it left. *)
Definition after (g : Gesture) (p : Page) : Page := (dispatch g p).2.

Definition run (gs : list Gesture) (p : Page) : Page := foldl (λ q g, after g q) p gs.

(** The page as the browser hands it to the script: nothing allocated, the
    given storage, the three elements of the document, no listener. *)
Definition blank_page (storage : gmap string string) : Page :=
  mkPage (mkState [] [] storage 0%nat)
         ["#todo-list"; "#add-button"; "#sort-button"]
         true "" [] [] [].

Definition loaded_page (storage : gmap string string) : Page :=
  (main (blank_page storage)).2.

(** ** Notions the statements use *)

(** The greatest id of a non-empty collection [t :: l]. *)
Definition max_id (t : Todo) (l : list Todo) : Z :=
  foldr (λ x m, Z.max (id x) m) (id t) l.

(** The id the specification gives a new Todo: the greatest id plus one, or
    one in an empty collection. *)
Definition fresh_id (l : list Todo) : Z :=
  match l with
  | [] => 1
  | t :: l' => max_id t l' + 1
  end.

Definition has_title (t : Todo) : bool := JSString.truthy (title t).

(** Titles in ascending order, letter case aside: the upper-cased title of
    [t1] is not greater than the one of [t2]. *)
Definition title_le (t1 t2 : Todo) : Prop :=
  JSString.compare (JSString.toUpperCase (title t1)) (JSString.toUpperCase (title t2)) ≠ Gt.

(** The safe integers: the integers of magnitude below [2^53], on which the
    arithmetic of Numbers is the arithmetic of integers. *)
Definition safe_integer (z : Z) : Prop := - 2 ^ 53 < z < 2 ^ 53.

Definition safe_ids (l : list Todo) : Prop := Forall (λ t, safe_integer (id t)) l.

(** At most one Todo of the collection has the empty title. *)
Definition at_most_one_empty (l : list Todo) : Prop :=
  (length (List.filter (λ t, negb (has_title t)) l) ≤ 1)%nat.

(** A reference with the object it points to in [objs]. *)
Definition points_to (objs : list Todo) (rt : loc * Todo) : Prop :=
  objs !! rt.1 = Some rt.2.

(** The elements [ts] after an assignment that makes reference [r] point to
    [t]: every occurrence of [r] shows the new object. *)
Definition reassign (r : loc) (t : Todo) (ts : list (loc * Todo)) : list (loc * Todo) :=
  map (λ rt, if decide (rt.1 = r) then (r, t) else rt) ts.

(** The mutating operations of the service. *)
Inductive Mutation : Type :=
  | Add (title_ : string)
  | Edit (i : Z) (title_ : string)
  | Delete (i : Z)
  | Sort (direction : bool).

Definition perform (op : Mutation) : Eff State unit :=
  match op with
  | Add title_ => addTodo title_
  | Edit i title_ => editTodo i title_
  | Delete i => deleteTodo i
  | Sort direction => sortTodos direction
  end.

(** The elements of the array a constructor call is given; without an
    argument it is a new empty array. *)
Definition seed_elements (σ : State) (seed : option loc) : option (list (loc * Todo)) :=
  match seed with
  | Some s => elements_in σ s
  | None => Some []
  end.

(** A service over the collection [l]: the state after
    [new TodoService(l)] in a page with nothing stored. *)
Definition service_of (l : list Todo) : State :=
  ((let* s := array_literal l in TodoService_new (Some s)) (mkState [] [] ∅ 0%nat)).2.

(** The items [displayTodos] builds for the collection [l]: per Todo, the
    id its listeners are bound to and the value of its input. *)
Definition rows (l : list Todo) : list (Z * string) :=
  map (λ t, (id t, title t)) l.

(** What [editTodo(i, title)] does to one Todo of the collection: nothing, or,
    to one with id [i], the title [s]. *)
Definition edited (i : Z) (s : string) (x y : Todo) : Prop :=
  y = x ∨ (id x = i ∧ y = {| id := i; title := s |}).

(** What a mutation that completes makes of the collection [l]. *)
Definition leaves (op : Mutation) (l l' : list Todo) : Prop :=
  match op with
  | Add title_ =>
      Forall (λ t, title t ≠ "") l ∧ l' = l ++ [Todo_new (fresh_id l) title_]
  | Edit i title_ =>
      title_ ≠ "" ∧ Forall2 (edited i (JSString.trim title_)) l l' ∧
      {| id := i; title := JSString.trim title_ |} ∈ l'
  | Delete i => l' = List.filter (λ t, negb (bool_decide (id t = i))) l
  | Sort direction =>
      l' = (if direction then sort_by compare_titles (List.filter has_title l)
            else rev (sort_by compare_titles (List.filter has_title l)))
  end.

(** What a mutation that completes makes of the collection [l], the
    generated id and the order among equal titles left open. *)
Definition changes (op : Mutation) (l l' : list Todo) : Prop :=
  match op with
  | Add title_ => ∃ i, l' = l ++ [Todo_new i title_]
  | Edit i title_ => Forall2 (edited i (JSString.trim title_)) l l'
  | Delete i => l' = List.filter (λ t, negb (bool_decide (id t = i))) l
  | Sort direction => l' ≡ₚ List.filter has_title l
  end.

(** The call a gesture makes into the service. *)
Definition mutation_of (p : Page) (g : Gesture) : Mutation :=
  match g with
  | ClickAdd => Add ""
  | ClickSort => Sort (_sortDir p)
  | ChangeInput i value => Edit i value
  | ClickDelete i => Delete i
  end.

(** A string that neither starts nor ends with white space. *)
Definition starts_clean (s : string) : bool :=
  match s with
  | EmptyString => true
  | String c _ => negb (JSString.isWhiteSpace c)
  end.

Definition clean (s : string) : Prop :=
  starts_clean s = true ∧ starts_clean (String.rev s) = true.

(** A page that shows its collection: the store is well formed, the list
    shows the collection, the storage reads back as the collection, and the
    sort button is in the document. *)
Definition shows (p : Page) (l : list Todo) : Prop :=
  todos (store p) = Some l ∧
  todoList p = rows l ∧
  JSON.parse (or_else (localStorage (store p) !! TODOS) "[]") = Some l ∧
  "#sort-button" ∈ document p.

(** * Lemmas *)

(** ** The string built-ins on examples *)

Example trim_both_ends : JSString.trim "  foo  " = "foo".
Proof. reflexivity. Qed.

Example trim_keeps_inner_space : JSString.trim (String "009" " a b " +:+ String "010" "")
                                 = "a b".
Proof. reflexivity. Qed.

Example trim_white_space_only : JSString.trim "   " = "".
Proof. reflexivity. Qed.

Example toUpperCase_letters :
  JSString.toUpperCase "b2-Az" = [66; 50; 45; 65; 90]%N.
Proof. reflexivity. Qed.

(** Sharp s, the micro sign and y with diaeresis. *)
Example toUpperCase_beyond_latin1 :
  JSString.toUpperCase (String "223" (String "181" (String "255" ""))) = [83; 83; 924; 376]%N.
Proof. reflexivity. Qed.

Example gt_is_by_code_unit :
  JSString.gt [98]%N [65]%N = true ∧ JSString.gt [66]%N [97]%N = false ∧
  JSString.gt [97; 98]%N [97]%N = true ∧ JSString.gt [924]%N [182]%N = true.
Proof. by vm_compute. Qed.

Example parse_leading_zero :
  JSON.parse ("[{" +:+ JSON.id_key +:+ "01," +:+ JSON.title_key +:+ JSON.quote "a" +:+ "}]")
  = None.
Proof. reflexivity. Qed.

Example stringify_parse_example :
  JSON.parse (JSON.stringify [mkTodo 1 ""; mkTodo (-20) (String JSON.dquote "\ x")])
  = Some [mkTodo 1 ""; mkTodo (-20) (String JSON.dquote "\ x")].
Proof. reflexivity. Qed.

(** ** The order [sort] leaves *)

Section sort_by.
Context {A : Type} (cmp : A → A → Z).

Lemma insert_by_perm (x : A) (l : list A) : insert_by cmp x l ≡ₚ x :: l.
Proof.
  induction l as [|y l IH]; simpl; [done|].
  destruct (cmp x y <? 0); [done|].
  rewrite IH. apply Permutation_swap.
Qed.

Lemma foldl_insert_by_perm (l acc : list A) :
  foldl (λ acc x, insert_by cmp x acc) acc l ≡ₚ acc ++ l.
Proof.
  revert acc. induction l as [|x l IH]; intros acc; simpl.
  - by rewrite app_nil_r.
  - rewrite IH, insert_by_perm. simpl. apply Permutation_middle.
Qed.

Lemma sort_by_perm (l : list A) : sort_by cmp l ≡ₚ l.
Proof. unfold sort_by. by rewrite foldl_insert_by_perm. Qed.

Lemma sort_by_length (l : list A) : length (sort_by cmp l) = length l.
Proof. by rewrite sort_by_perm. Qed.

(** An order [R] that the comparison function decides. *)
Context (R : A → A → Prop).
Hypothesis R_trans : ∀ x y z, R x y → R y z → R x z.
Hypothesis cmp_neg : ∀ x y, cmp x y < 0 → R x y.
Hypothesis cmp_nonneg : ∀ x y, 0 ≤ cmp x y → R y x.

Lemma insert_by_sorted (x : A) (l : list A) :
  StronglySorted R l → StronglySorted R (insert_by cmp x l).
Proof.
  induction 1 as [|y l Hl IH Hy]; simpl.
  - repeat constructor.
  - destruct (Z.ltb_spec (cmp x y) 0) as [Hlt|Hge].
    + constructor; [by constructor|].
      constructor; [by apply cmp_neg|].
      eapply Forall_impl; [exact Hy|]. intros z Hz.
      eapply R_trans; [|exact Hz]. by apply cmp_neg.
    + constructor; [done|].
      rewrite insert_by_perm. constructor; [by apply cmp_nonneg|done].
Qed.

Lemma sort_by_sorted (l : list A) : StronglySorted R (sort_by cmp l).
Proof.
  unfold sort_by.
  assert (∀ acc, StronglySorted R acc →
            StronglySorted R (foldl (λ acc x, insert_by cmp x acc) acc l)) as H.
  { induction l as [|x l IH]; intros acc Hacc; simpl; [done|].
    by apply IH, insert_by_sorted. }
  apply H. constructor.
Qed.
End sort_by.

Lemma insert_by_map {A B : Type} (f : A → B) (cmp : B → B → Z) (x : A) (l : list A) :
  map f (insert_by (λ a b, cmp (f a) (f b)) x l) = insert_by cmp (f x) (map f l).
Proof.
  induction l as [|y l IH]; simpl; [done|].
  destruct (cmp (f x) (f y) <? 0); simpl; [done|]. by rewrite IH.
Qed.

Lemma sort_by_map {A B : Type} (f : A → B) (cmp : B → B → Z) (l : list A) :
  map f (sort_by (λ a b, cmp (f a) (f b)) l) = sort_by cmp (map f l).
Proof.
  unfold sort_by.
  assert (∀ acc, map f (foldl (λ acc x, insert_by (λ a b, cmp (f a) (f b)) x acc) acc l)
                 = foldl (λ acc x, insert_by cmp x acc) (map f acc) (map f l)) as H.
  { induction l as [|x l IH]; intros acc; simpl; [done|].
    by rewrite IH, insert_by_map. }
  apply (H []).
Qed.

(** ** The greatest id *)

Lemma max_id_ge (t : Todo) (l : list Todo) :
  id t ≤ max_id t l ∧ Forall (λ x, id x ≤ max_id t l) l.
Proof.
  unfold max_id. induction l as [|y l [IH1 IH2]]; simpl; [by split|].
  split; [lia|]. constructor; [lia|].
  eapply Forall_impl; [exact IH2|]. simpl. intros; lia.
Qed.

Lemma max_id_in (t : Todo) (l : list Todo) :
  ∃ x, x ∈ t :: l ∧ id x = max_id t l.
Proof.
  unfold max_id. induction l as [|y l (x & Hx & IH)]; simpl.
  - exists t. split; [left|done].
  - destruct (Z.max_spec (id y) (foldr (λ x m, Z.max (id x) m) (id t) l))
      as [[_ ->]|[_ ->]].
    + exists x. split; [|done].
      apply elem_of_cons in Hx as [->|Hx]; [left|right; by right].
    + exists y. split; [right; left|done].
Qed.

(** The greatest id is the id of any element no other exceeds. *)
Lemma max_id_unique (t : Todo) (l : list Todo) (x : Todo) :
  x ∈ t :: l → Forall (λ y, id y ≤ id x) (t :: l) → max_id t l = id x.
Proof.
  intros Hx Hall.
  destruct (max_id_in t l) as (m & Hm & Hid).
  destruct (max_id_ge t l) as [Ht Hl].
  assert (id m ≤ id x) by (rewrite Forall_forall in Hall; by apply Hall).
  assert (id x ≤ max_id t l).
  { apply elem_of_cons in Hx as [->|Hx]; [done|].
    rewrite Forall_forall in Hl. by apply Hl. }
  lia.
Qed.

(** ** The heap *)

Lemma deref_all_Some (objs : list Todo) (refs : list loc) (ts : list (loc * Todo)) :
  deref_all objs refs = Some ts ↔ refs = map fst ts ∧ Forall (points_to objs) ts.
Proof.
  unfold deref_all. rewrite mapM_Some. split.
  - induction 1 as [|r [r' t] refs ts Hr _ [IH1 IH2]]; simpl; [done|].
    destruct (objs !! r) as [t'|] eqn:E; simplify_eq/=.
    split; [done|]. by constructor.
  - intros [-> H]. induction H as [|[r t] ts Hrt _ IH]; simpl; constructor; [|done].
    unfold points_to in Hrt. simpl in Hrt. by rewrite Hrt.
Qed.

Lemma points_to_app (objs k : list Todo) (ts : list (loc * Todo)) :
  Forall (points_to objs) ts → Forall (points_to (objs ++ k)) ts.
Proof.
  intros H. eapply Forall_impl; [exact H|].
  intros [r t]. unfold points_to. simpl.
  intros Hrt. by apply lookup_app_l_Some.
Qed.

Lemma deref_all_app (objs k : list Todo) (refs : list loc) ts :
  deref_all objs refs = Some ts → deref_all (objs ++ k) refs = Some ts.
Proof.
  rewrite !deref_all_Some. intros [-> H]. split; [done|]. by apply points_to_app.
Qed.

Lemma deref_all_map_fst (objs : list Todo) (ts : list (loc * Todo)) :
  Forall (points_to objs) ts → deref_all objs (map fst ts) = Some ts.
Proof. intros H. by apply deref_all_Some. Qed.

Lemma points_to_filter (objs : list Todo) (p : loc * Todo → bool) ts :
  Forall (points_to objs) ts → Forall (points_to objs) (List.filter p ts).
Proof.
  rewrite !Forall_forall. intros H x Hx. apply H.
  apply list_elem_of_In in Hx. apply filter_In in Hx as [Hx _].
  by apply list_elem_of_In.
Qed.

Lemma points_to_perm (objs : list Todo) ts ts' :
  ts ≡ₚ ts' → Forall (points_to objs) ts → Forall (points_to objs) ts'.
Proof. intros H. by rewrite H. Qed.

Lemma lookup_snoc {A : Type} (l : list A) (x : A) :
  (l ++ [x])%list !! length l = Some x.
Proof. by apply list_lookup_middle. Qed.

Lemma lookup_map {A B : Type} (f : A → B) (l : list A) (i : nat) :
  map f l !! i = f <$> l !! i.
Proof. revert i. induction l as [|x l IH]; intros [|i]; simpl; auto. Qed.

Lemma insert_snoc {A : Type} (l : list A) (x y : A) :
  <[length l := y]> (l ++ [x])%list = (l ++ [y])%list.
Proof.
  replace (length l) with (length l + 0)%nat by lia.
  by rewrite insert_app_r.
Qed.

Lemma map_snd_filter (p : Todo → bool) (ts : list (loc * Todo)) :
  map snd (List.filter (λ rt, p rt.2) ts) = List.filter p (map snd ts).
Proof.
  induction ts as [|[r t] ts IH]; simpl; [done|].
  destruct (p t); simpl; by rewrite IH.
Qed.

(** What the collection is, in terms of the heap. *)
Lemma todos_Some (σ : State) (l : list Todo) :
  todos σ = Some l ↔
  ∃ ts, arrays σ !! _todos σ = Some (map fst ts) ∧
        Forall (points_to (objects σ)) ts ∧ l = map snd ts.
Proof.
  unfold todos, elements_in. split.
  - intros H. destruct (arrays σ !! _todos σ) as [refs|] eqn:E; simplify_eq/=.
    destruct (deref_all (objects σ) refs) as [ts|] eqn:E'; simplify_eq/=.
    apply deref_all_Some in E' as [-> ?]. by exists ts.
  - intros (ts & -> & H & ->). simpl. by rewrite deref_all_map_fst.
Qed.

(** ** Running the methods *)

Lemma bind_Normal {S A B : Type} (m : Eff S A) (k : A → Eff S B) σ a σ' r :
  m σ = (Normal a, σ') → k a σ' = r → bind m k σ = r.
Proof. unfold bind. by intros -> ->. Qed.

Lemma bind_Throw {S A B : Type} (m : Eff S A) (k : A → Eff S B) σ e σ' :
  m σ = (Throw e, σ') → bind m k σ = (Throw e, σ').
Proof. unfold bind. by intros ->. Qed.

(** One statement of a method body: [lem] says how it runs. *)
Ltac step lem :=
  eapply bind_Normal;
  [ eapply lem; eauto using lookup_snoc, lookup_app_l_Some; done
  | cbv beta ].

Section primitives.
Context (objs : list Todo) (arrs : list (list loc)) (ls : gmap string string) (td : loc).
Lemma run_this_todos :
  this_todos (mkState objs arrs ls td) = (Normal td, mkState objs arrs ls td).
Proof. done. Qed.

Lemma run_assign__todos a :
  assign__todos a (mkState objs arrs ls td) = (Normal tt, mkState objs arrs ls a).
Proof. done. Qed.

Lemma run_new_array refs :
  new_array refs (mkState objs arrs ls td)
  = (Normal (length arrs), mkState objs (arrs ++ [refs]) ls td).
Proof. done. Qed.

Lemma run_new_object t :
  new_object t (mkState objs arrs ls td)
  = (Normal (length objs), mkState (objs ++ [t]) arrs ls td).
Proof. done. Qed.

Lemma run_get_array a refs :
  arrs !! a = Some refs →
  get_array a (mkState objs arrs ls td) = (Normal refs, mkState objs arrs ls td).
Proof. intros H. unfold get_array. simpl. by rewrite H. Qed.

Lemma run_set_array a refs :
  set_array a refs (mkState objs arrs ls td)
  = (Normal tt, mkState objs (<[a := refs]> arrs) ls td).
Proof. done. Qed.

Lemma run_get_object r t :
  objs !! r = Some t →
  get_object r (mkState objs arrs ls td) = (Normal t, mkState objs arrs ls td).
Proof. intros H. unfold get_object. simpl. by rewrite H. Qed.

Lemma run_set_title r t s :
  objs !! r = Some t →
  set_title r s (mkState objs arrs ls td)
  = (Normal tt, mkState (<[r := {| id := id t; title := s |}]> objs) arrs ls td).
Proof. intros H. unfold set_title. by step run_get_object. Qed.

Lemma run_elements a ts :
  arrs !! a = Some (map fst ts) → Forall (points_to objs) ts →
  elements a (mkState objs arrs ls td) = (Normal ts, mkState objs arrs ls td).
Proof.
  intros Ha Hts. unfold elements, elements_in. simpl.
  rewrite Ha. simpl. by rewrite deref_all_map_fst.
Qed.

Lemma run_Array_spread a refs :
  arrs !! a = Some refs →
  Array_spread a (mkState objs arrs ls td)
  = (Normal (length arrs), mkState objs (arrs ++ [refs]) ls td).
Proof. intros H. unfold Array_spread. by step run_get_array. Qed.

Lemma run_Array_length a refs :
  arrs !! a = Some refs →
  Array_length a (mkState objs arrs ls td) = (Normal (length refs), mkState objs arrs ls td).
Proof. intros H. unfold Array_length. by step run_get_array. Qed.

Lemma run_Array_get a refs n r :
  arrs !! a = Some refs → refs !! n = Some r →
  Array_get a (Z.of_nat n) (mkState objs arrs ls td) = (Normal r, mkState objs arrs ls td).
Proof.
  intros Ha Hn. unfold Array_get. step run_get_array.
  replace (0 <=? Z.of_nat n) with true by (symmetry; apply Z.leb_le; lia).
  by rewrite Nat2Z.id, Hn.
Qed.

Lemma run_Array_some p a ts :
  arrs !! a = Some (map fst ts) → Forall (points_to objs) ts →
  Array_some p a (mkState objs arrs ls td)
  = (Normal (existsb p (map snd ts)), mkState objs arrs ls td).
Proof.
  intros Ha Hts. unfold Array_some. step run_elements.
  unfold ret. do 2 f_equal.
  clear. induction ts as [|[r t] ts' IH]; simpl; [done|]. by rewrite IH.
Qed.

Lemma run_Array_filter p a ts :
  arrs !! a = Some (map fst ts) → Forall (points_to objs) ts →
  Array_filter p a (mkState objs arrs ls td)
  = (Normal (length arrs),
     mkState objs (arrs ++ [map fst (List.filter (λ rt, p rt.2) ts)]) ls td).
Proof. intros Ha Hts. unfold Array_filter. by step run_elements. Qed.

Lemma run_Array_findIndex p a ts :
  arrs !! a = Some (map fst ts) → Forall (points_to objs) ts →
  Array_findIndex p a (mkState objs arrs ls td)
  = (Normal (match list_find (λ rt, p rt.2 = true) ts with
             | Some (n, _) => Z.of_nat n
             | None => -1
             end), (mkState objs arrs ls td)).
Proof. intros Ha Hts. unfold Array_findIndex. by step run_elements. Qed.

Lemma run_Array_sort cmp a ts :
  arrs !! a = Some (map fst ts) → Forall (points_to objs) ts →
  Array_sort cmp a (mkState objs arrs ls td)
  = (Normal a,
     mkState objs (<[a := map fst (sort_by (λ x y, cmp x.2 y.2) ts)]> arrs) ls td).
Proof. intros Ha Hts. unfold Array_sort. step run_elements. by step run_set_array. Qed.

Lemma run_Array_reverse a refs :
  arrs !! a = Some refs →
  Array_reverse a (mkState objs arrs ls td)
  = (Normal a, mkState objs (<[a := rev refs]> arrs) ls td).
Proof. intros Ha. unfold Array_reverse. step run_get_array. by step run_set_array. Qed.

Lemma run__commit ts :
  arrs !! td = Some (map fst ts) → Forall (points_to objs) ts →
  _commit (mkState objs arrs ls td)
  = (Normal tt, mkState objs arrs (<[TODOS := JSON.stringify (map snd ts)]> ls) td).
Proof.
  intros Ha Hts. unfold _commit. step run_this_todos. by step run_elements.
Qed.

Lemma run_getTodos refs :
  arrs !! td = Some refs →
  getTodos (mkState objs arrs ls td)
  = (Normal (length arrs), mkState objs (arrs ++ [refs]) ls td).
Proof. intros H. unfold getTodos. step run_this_todos. by apply run_Array_spread. Qed.
End primitives.

Lemma sorted_ids_head (l : list Todo) (x : Todo) (l' : list Todo) :
  sort_by (λ t1 t2, id t2 - id t1) l = x :: l' → id x + 1 = fresh_id l.
Proof.
  intros Hs.
  assert (StronglySorted (λ t1 t2, id t2 ≤ id t1) (x :: l')) as Hsorted.
  { rewrite <- Hs. apply sort_by_sorted; intros; lia. }
  assert (l ≡ₚ x :: l') as Hperm by (by rewrite <- Hs, sort_by_perm).
  destruct l as [|t l]; [by apply Permutation_nil_cons in Hperm|].
  simpl. f_equal. symmetry. apply max_id_unique.
  - rewrite Hperm. left.
  - rewrite Hperm. apply StronglySorted_inv in Hsorted as [_ H].
    constructor; [lia|done].
Qed.

Lemma points_to_snoc objs ts t :
  Forall (points_to objs) ts →
  Forall (points_to (objs ++ [t])) (ts ++ [(length objs, t)]).
Proof.
  intros H. apply Forall_app. split; [by apply points_to_app|].
  constructor; [|done]. unfold points_to. simpl. apply lookup_snoc.
Qed.

Lemma reassign_fst r t ts : map fst (reassign r t ts) = map fst ts.
Proof.
  unfold reassign. rewrite map_map. apply map_ext.
  intros [r' t']. simpl. by case_decide; simplify_eq/=.
Qed.

Lemma points_to_reassign objs r t ts :
  (r < length objs)%nat → Forall (points_to objs) ts →
  Forall (points_to (<[r := t]> objs)) (reassign r t ts).
Proof.
  intros Hr Hts. unfold reassign. apply Forall_map.
  eapply Forall_impl; [exact Hts|]. intros [r' t']. unfold points_to. simpl.
  intros H. case_decide; simplify_eq/=.
  - by apply list_lookup_insert_eq.
  - by rewrite list_lookup_insert_ne.
Qed.

(** With no reference twice in the array, the assignment shows at one index. *)
Lemma reassign_insert r t ts n t0 :
  NoDup (map fst ts) → ts !! n = Some (r, t0) →
  reassign r t ts = <[n := (r, t)]> ts.
Proof.
  revert n. induction ts as [|[r' t'] ts IH]; intros n Hnd Hn; [done|].
  change (map fst ((r', t') :: ts)) with (r' :: map fst ts) in Hnd.
  apply NoDup_cons in Hnd as [Hnotin Hnd].
  change (reassign r t ((r', t') :: ts))
    with ((if decide (r' = r) then (r, t) else (r', t')) :: reassign r t ts).
  destruct n as [|n]; simpl in Hn; simplify_eq.
  - rewrite decide_True by done. simpl. f_equal.
    unfold reassign. rewrite <- (map_id ts) at 2. apply map_ext_in.
    intros [r' t'] Hin. simpl. case_decide; [|done]. subst.
    exfalso. apply Hnotin. apply list_elem_of_In, in_map_iff. by exists (r, t').
  - rewrite decide_False; [simpl; f_equal; by apply IH|].
    intros ->. apply Hnotin.
    apply list_elem_of_lookup. exists n. by rewrite lookup_map, Hn.
Qed.

Section methods.
Context (objs : list Todo) (arrs : list (list loc)) (ls : gmap string string) (td : loc).
Context (ts : list (loc * Todo)).
Hypothesis Htd : arrs !! td = Some (map fst ts).
Hypothesis Hts : Forall (points_to objs) ts.
Lemma run__generateId :
  ∃ garbage,
    _generateId (mkState objs arrs ls td)
    = (Normal (fresh_id (map snd ts)), mkState objs (arrs ++ garbage) ls td).
Proof.
  unfold _generateId. 
  destruct ts as [|rt ts'] eqn:Ets.
  { exists []. rewrite app_nil_r. step run_this_todos. by step run_Array_length. }
  rewrite <- Ets in *. 
  destruct (sort_by (λ x y, id y.2 - id x.2) ts) as [|[r t] rest] eqn:Hs.
  { apply (f_equal length) in Hs. rewrite sort_by_length in Hs. by subst ts. }
  assert (points_to objs (r, t)) as Hrt.
  { assert (Forall (points_to objs) ((r, t) :: rest)) as H.
    { rewrite <- Hs. eapply points_to_perm; [|exact Hts]. by rewrite sort_by_perm. }
    by apply Forall_inv in H. }
  eexists [_].
  step run_this_todos. step run_Array_length.
  rewrite length_map. replace (length ts =? 0)%nat with false by (by subst ts).
  simpl negb. cbv iota.
  step run_Array_spread. step run_Array_sort.
  rewrite insert_snoc, Hs.
  eapply bind_Normal;
    [eapply (run_Array_get _ _ _ _ _ _ 0%nat); [apply lookup_snoc|reflexivity]|].
  cbv beta.
  step run_get_object.
  unfold ret. do 2 f_equal.
  apply (f_equal (map snd)) in Hs.
  rewrite (sort_by_map snd (λ t1 t2, id t2 - id t1)) in Hs. simpl in Hs.
  by apply sorted_ids_head in Hs.
Qed.

Lemma run_addTodo_ok title_ :
  existsb (λ t, negb (has_title t)) (map snd ts) = false →
  let t := Todo_new (fresh_id (map snd ts)) title_ in
  ∃ garbage,
    addTodo title_ (mkState objs arrs ls td)
    = (Normal tt,
       mkState (objs ++ [t])
               ((arrs ++ garbage) ++ [map fst (ts ++ [(length objs, t)])])
               (<[TODOS := JSON.stringify (map snd ts ++ [t])]> ls)
               (length (arrs ++ garbage))).
Proof.
  intros Hnone t.
  destruct run__generateId as [garbage Hid].
  exists garbage. unfold addTodo.
  step run_this_todos. step run_Array_some.
  unfold has_title in Hnone. rewrite Hnone. simpl negb. cbv iota.
  step run_get_array. step Hid. step run_new_object. step run_new_array.
  step run_assign__todos. fold t.
  erewrite run__commit with (ts := (ts ++ [(length objs, t)])%list).
  - by rewrite !map_app.
  - rewrite map_app. simpl. apply lookup_snoc.
  - by apply points_to_snoc.
Qed.

Lemma run_addTodo_fail title_ :
  existsb (λ t, negb (has_title t)) (map snd ts) = true →
  addTodo title_ (mkState objs arrs ls td) = (Throw DuplicateEmptyEntry, mkState objs arrs ls td).
Proof.
  intros Hsome. unfold addTodo.
  step run_this_todos. step run_Array_some.
  unfold has_title in Hsome. by rewrite Hsome.
Qed.

Lemma run_deleteTodo i :
  let ts' := List.filter (λ rt, negb (bool_decide (id rt.2 = i))) ts in
  deleteTodo i (mkState objs arrs ls td)
  = (Normal tt,
     mkState objs (arrs ++ [map fst ts'])
             (<[TODOS := JSON.stringify (map snd ts')]> ls) (length arrs)).
Proof.
  intros ts'. unfold deleteTodo.
  step run_this_todos. step run_Array_filter. step run_assign__todos.
  apply run__commit; [apply lookup_snoc|by apply points_to_filter].
Qed.

Lemma run_sortTodos (direction : bool) :
  let sorted := sort_by (λ x y, compare_titles x.2 y.2)
                        (List.filter (λ rt, has_title rt.2) ts) in
  let ts' := if direction then sorted else rev sorted in
  sortTodos direction (mkState objs arrs ls td)
  = (Normal tt,
     mkState objs ((arrs ++ [map fst ts]) ++ [map fst ts'])
             (<[TODOS := JSON.stringify (map snd ts')]> ls)
             (length (arrs ++ [map fst ts]))).
Proof.
  intros sorted ts'.
  assert (Forall (points_to objs) (List.filter (λ rt, has_title rt.2) ts)) as Hf
    by (by apply points_to_filter).
  assert (Forall (points_to objs) sorted) as Hsorted.
  { eapply points_to_perm; [|exact Hf]. unfold sorted. by rewrite sort_by_perm. }
  assert (Forall (points_to objs) ts') as Hts'.
  { unfold ts'. destruct direction; [done|].
    eapply points_to_perm; [|exact Hsorted]. by rewrite <- Permutation_rev. }
  unfold sortTodos.
  step run_this_todos. step run_Array_spread. step run_Array_filter.
  step run_Array_sort. rewrite insert_snoc. fold sorted.
  destruct direction; simpl.
  - eapply bind_Normal; [reflexivity|]. cbv beta.
    step run_assign__todos.
    apply run__commit; [apply lookup_snoc|done].
  - eapply bind_Normal; [step run_Array_reverse; reflexivity|].
    cbv beta. rewrite insert_snoc, <- map_rev.
    step run_assign__todos.
    apply run__commit; [apply lookup_snoc|done].
Qed.

Lemma run_editTodo_empty i :
  editTodo i "" (mkState objs arrs ls td) = (Throw EmptyTitle, mkState objs arrs ls td).
Proof. done. Qed.

Lemma run_editTodo_missing i title_ :
  title_ ≠ "" →
  list_find (λ rt, bool_decide (id rt.2 = i) = true) ts = None →
  editTodo i title_ (mkState objs arrs ls td)
  = (Throw (NotFound i), mkState objs (arrs ++ [map fst ts]) ls td).
Proof.
  intros Htitle Hfind. unfold editTodo.
  destruct title_ as [|c title_]; [done|]. simpl negb. cbv iota.
  step run_this_todos. step run_Array_spread.
  apply bind_Throw. unfold _getIndex.
  step run_this_todos. step run_Array_findIndex.
  by rewrite Hfind.
Qed.

Lemma run_editTodo_found i title_ n r t :
  title_ ≠ "" →
  list_find (λ rt, bool_decide (id rt.2 = i) = true) ts = Some (n, (r, t)) →
  let t' := {| id := id t; title := JSString.trim title_ |} in
  let ts' := reassign r t' ts in
  editTodo i title_ (mkState objs arrs ls td)
  = (Normal tt,
     mkState (<[r := t']> objs) (arrs ++ [map fst ts'])
             (<[TODOS := JSON.stringify (map snd ts')]> ls) (length arrs)).
Proof.
  intros Htitle Hfind t' ts'.
  pose proof Hfind as Hf. apply list_find_Some in Hf as (Hn & _ & _).
  assert (points_to objs (r, t)) as Hrt.
  { rewrite Forall_forall in Hts. apply Hts. apply list_elem_of_lookup. eauto. }
  unfold points_to in Hrt. simpl in Hrt.
  unfold editTodo.
  destruct title_ as [|c title_]; [done|]. simpl negb. cbv iota.
  step run_this_todos. step run_Array_spread.
  eapply bind_Normal.
  { unfold _getIndex. step run_this_todos. step run_Array_findIndex.
    rewrite Hfind.
    replace (Z.of_nat n =? -1) with false by (symmetry; apply Z.eqb_neq; lia).
    reflexivity. }
  cbv beta.
  eapply bind_Normal;
    [eapply run_Array_get; [apply lookup_snoc|by rewrite lookup_map, Hn]|].
  cbv beta.
  step run_set_title. step run_assign__todos.
  fold t'. rewrite <- (reassign_fst r t' ts). fold ts'.
  apply run__commit; [apply lookup_snoc|].
  apply points_to_reassign; [|done]. by eapply lookup_lt_Some.
Qed.
End methods.

(** ** JSON: what [stringify] writes, [parse] reads back *)

Section json.
Local Arguments String.append : simpl nomatch.

Lemma append_assoc (s1 s2 s3 : string) : (s1 +:+ s2) +:+ s3 = s1 +:+ (s2 +:+ s3).
Proof. induction s1 as [|c s1 IH]; simpl; [done|]. by rewrite IH. Qed.

Lemma expect_app (p s : string) : JSON.expect p (p +:+ s) = Some s.
Proof.
  induction p as [|c p IH]; simpl; [by destruct s|].
  by rewrite decide_True.
Qed.

Lemma read_uint_app (u : uint) (rest : string) :
  JSON.read_uint rest = (Nil, rest) →
  JSON.read_uint (JSON.uint_to_string u +:+ rest) = (u, rest).
Proof. intros H. induction u; simpl; [done|by rewrite IHu..]. Qed.

Lemma to_uint_unorm (p : positive) : unorm (Pos.to_uint p) = Pos.to_uint p.
Proof.
  pose proof (DecimalPos.Unsigned.to_of (Pos.to_uint p)) as H.
  by rewrite DecimalPos.Unsigned.of_to in H.
Qed.

Lemma read_nat_app (p : positive) (rest : string) :
  JSON.read_uint rest = (Nil, rest) →
  JSON.read_nat (JSON.uint_to_string (Pos.to_uint p) +:+ rest) = Some (Npos p, rest).
Proof.
  intros H. unfold JSON.read_nat. rewrite read_uint_app by done.
  pose proof (DecimalPos.Unsigned.to_uint_nonnil p) as Hnil.
  pose proof (DecimalPos.Unsigned.of_to p) as Hp.
  pose proof (to_uint_unorm p) as Hnorm. unfold N.of_uint.
  destruct (Pos.to_uint p); [done|rewrite Hp; by destruct (uint_eq_dec _ _)..].
Qed.

Lemma read_number_app (z : Z) (rest : string) :
  JSON.read_uint rest = (Nil, rest) →
  JSON.read_number (JSON.number_to_string z +:+ rest) = Some (z, rest).
Proof.
  intros H. destruct z as [|p|p]; simpl.
  - unfold JSON.read_nat. simpl. by rewrite H.
  - pose proof (read_nat_app p rest H) as Hp.
    pose proof (DecimalPos.Unsigned.to_uint_nonnil p) as Hnil.
    unfold JSON.read_number.
    destruct (Pos.to_uint p); [done|simpl in *; by rewrite Hp..].
  - by rewrite read_nat_app.
Qed.

Lemma read_units_quote_unit (c : ascii) (tail : string) :
  JSON.read_units (JSON.quote_unit c +:+ tail)
  = match JSON.read_units tail with
    | Some (t, r) => Some (String c t, r)
    | None => None
    end.
Proof. by destruct c as [[] [] [] [] [] [] [] []]. Qed.

Lemma read_units_app (s rest : string) :
  JSON.read_units (JSON.quote_units s +:+ String JSON.dquote rest) = Some (s, rest).
Proof.
  induction s as [|c s IH]; [done|].
  simpl JSON.quote_units. by rewrite append_assoc, read_units_quote_unit, IH.
Qed.

Lemma read_string_app (s rest : string) :
  JSON.read_string (JSON.quote s +:+ rest) = Some (s, rest).
Proof.
  unfold JSON.quote, JSON.read_string. simpl.
  rewrite append_assoc. simpl. apply read_units_app.
Qed.

Lemma read_object_app (t : Todo) (rest : string) :
  JSON.read_object (JSON.stringify_object t +:+ rest) = Some (t, rest).
Proof.
  unfold JSON.read_object, JSON.stringify_object.
  rewrite !append_assoc, <- (append_assoc "{" JSON.id_key).
  rewrite expect_app. cbn [mbind option_bind].
  rewrite read_number_app by done. cbn [mbind option_bind].
  rewrite <- (append_assoc "," JSON.title_key).
  rewrite expect_app. cbn [mbind option_bind].
  rewrite read_string_app. cbn [mbind option_bind].
  rewrite expect_app. cbn [mbind option_bind]. by destruct t.
Qed.

Lemma read_elements_stringify (t : Todo) (l : list Todo) (fuel : nat) :
  (length l < fuel)%nat →
  JSON.read_elements fuel (JSON.stringify_elements (t :: l) +:+ "]") = Some (t :: l).
Proof.
  revert t fuel. induction l as [|t' l IH]; intros t [|fuel] Hfuel; try (simpl in *; lia).
  - cbn [JSON.read_elements JSON.stringify_elements].
    by rewrite read_object_app.
  - change (JSON.stringify_elements (t :: t' :: l))
      with (JSON.stringify_object t +:+ "," +:+ JSON.stringify_elements (t' :: l)).
    cbn [JSON.read_elements]. rewrite !append_assoc, read_object_app.
    cbn [mbind option_bind String.append].
    rewrite IH by (simpl in *; lia). done.
Qed.

Lemma length_app_string (s1 s2 : string) :
  String.length (s1 +:+ s2) = (String.length s1 + String.length s2)%nat.
Proof. induction s1 as [|c s1 IH]; simpl; [done|]. by rewrite IH. Qed.

Lemma stringify_elements_length (t : Todo) (l : list Todo) :
  (length l < String.length (JSON.stringify_elements (t :: l)))%nat.
Proof.
  revert t. induction l as [|t' l IH]; intros t.
  - simpl. unfold JSON.stringify_object. simpl. lia.
  - change (JSON.stringify_elements (t :: t' :: l))
      with (JSON.stringify_object t +:+ "," +:+ JSON.stringify_elements (t' :: l)).
    rewrite !length_app_string. specialize (IH t'). simpl in *. lia.
Qed.

(** [JSON.parse(JSON.stringify(l))] is [l] again. *)
Lemma parse_stringify (l : list Todo) : JSON.parse (JSON.stringify l) = Some l.
Proof.
  destruct l as [|t l]; [done|].
  unfold JSON.stringify, JSON.parse.
  assert (∃ c r, JSON.stringify_elements (t :: l) = String c r ∧ c ≠ "]"%char)
    as (c & r & Hcr & Hc).
  { destruct l; simpl; unfold JSON.stringify_object; simpl; eauto. }
  rewrite Hcr. cbn [String.append].
  assert (JSON.read_elements (String.length (String c r +:+ "]")) (String c r +:+ "]")
          = Some (t :: l)) as H.
  { rewrite <- Hcr. apply read_elements_stringify.
    rewrite length_app_string. pose proof (stringify_elements_length t l). lia. }
  cbn [String.append] in H.
  by destruct c as [[] [] [] [] [] [] [] []].
Qed.
End json.

(** ** Construction *)

Lemma points_to_seq (objs l : list Todo) :
  Forall (points_to (objs ++ l)) (zip (seq (length objs) (length l)) l).
Proof.
  revert objs. induction l as [|t l IH]; intros objs; simpl; [done|].
  constructor.
  - unfold points_to. simpl. by apply list_lookup_middle.
  - specialize (IH (objs ++ [t])%list).
    rewrite length_app, <- app_assoc in IH. simpl in IH.
    by rewrite Nat.add_1_r in IH.
Qed.

Lemma zip_seq_fst (n : nat) (l : list Todo) :
  map fst (zip (seq n (length l)) l) = seq n (length l).
Proof. revert n. induction l as [|t l IH]; intros n; simpl; [done|]. by rewrite IH. Qed.

Lemma zip_seq_snd (n : nat) (l : list Todo) : map snd (zip (seq n (length l)) l) = l.
Proof. revert n. induction l as [|t l IH]; intros n; simpl; [done|]. by rewrite IH. Qed.

Lemma run_new_objects objs arrs ls td l :
  new_objects l (mkState objs arrs ls td)
  = (Normal (seq (length objs) (length l)), mkState (objs ++ l) arrs ls td).
Proof.
  revert objs. induction l as [|t l IH]; intros objs; simpl.
  - by rewrite app_nil_r.
  - step run_new_object.
    eapply bind_Normal; [apply IH|]. cbv beta. unfold ret.
    rewrite length_app, <- app_assoc. simpl. by rewrite Nat.add_1_r.
Qed.

Lemma run_array_literal objs arrs ls td l :
  array_literal l (mkState objs arrs ls td)
  = (Normal (length arrs),
     mkState (objs ++ l) (arrs ++ [map fst (zip (seq (length objs) (length l)) l)]) ls td).
Proof.
  unfold array_literal. step run_new_objects. by rewrite zip_seq_fst.
Qed.

Lemma run__init objs arrs ls td l :
  JSON.parse (or_else (ls !! TODOS) "[]") = Some l →
  _init (mkState objs arrs ls td)
  = (Normal tt,
     mkState (objs ++ l) (arrs ++ [map fst (zip (seq (length objs) (length l)) l)])
             ls (length arrs)).
Proof.
  intros Hparse. unfold _init.
  eapply bind_Normal; [reflexivity|]. cbv beta. simpl.
  unfold JSON_parse. rewrite Hparse.
  eapply bind_Normal; [apply run_array_literal|]. done.
Qed.

(** The constructor on a non-empty stored collection: the seed is ignored. *)
Lemma run_TodoService_new_stored objs arrs ls td l seed :
  JSON.parse (or_else (ls !! TODOS) "[]") = Some l → l ≠ [] →
  ∃ garbage objs' arrs' td',
    TodoService_new seed (mkState objs arrs ls td)
    = (Normal tt, mkState objs' arrs' ls td') ∧
    objs' = (objs ++ l)%list ∧
    arrs' = ((arrs ++ garbage) ++ [map fst (zip (seq (length objs) (length l)) l)])%list ∧
    td' = length (arrs ++ garbage).
Proof.
  intros Hparse Hne.
  exists (match seed with Some _ => [] | None => [[]] end). do 3 eexists.
  split; [|done].
  unfold TodoService_new. destruct seed as [s|].
  - eapply bind_Normal; [reflexivity|]. cbv beta. rewrite app_nil_r.
    step run__init. step run_this_todos. step run_Array_length.
    rewrite zip_seq_fst, length_seq. by destruct l.
  - step run_new_array. step run__init. step run_this_todos. step run_Array_length.
    rewrite zip_seq_fst, length_seq. by destruct l.
Qed.

(** The constructor on an empty stored collection: the seed array becomes
    the collection and is written to the storage. *)
Lemma run_TodoService_new_seed objs arrs ls td s ss :
  JSON.parse (or_else (ls !! TODOS) "[]") = Some [] →
  arrs !! s = Some (map fst ss) → Forall (points_to objs) ss →
  TodoService_new (Some s) (mkState objs arrs ls td)
  = (Normal tt,
     mkState objs (arrs ++ [[]]) (<[TODOS := JSON.stringify (map snd ss)]> ls) s).
Proof.
  intros Hparse Hs Hss. unfold TodoService_new.
  eapply bind_Normal; [reflexivity|]. cbv beta.
  step run__init. simpl. rewrite app_nil_r.
  step run_this_todos. step run_Array_length. simpl.
  step run_assign__todos.
  apply run__commit; [by apply lookup_app_l_Some|done].
Qed.

(** The constructor without an argument on an empty stored collection. *)
Lemma run_TodoService_new_default objs arrs ls td :
  JSON.parse (or_else (ls !! TODOS) "[]") = Some [] →
  TodoService_new None (mkState objs arrs ls td)
  = (Normal tt,
     mkState objs ((arrs ++ [[]]) ++ [[]]) (<[TODOS := JSON.stringify []]> ls)
             (length arrs)).
Proof.
  intros Hparse. unfold TodoService_new.
  step run_new_array. step run__init. simpl. rewrite app_nil_r.
  step run_this_todos. step run_Array_length. simpl.
  step run_assign__todos.
  apply (run__commit _ _ _ _ []); [|done].
  simpl. apply lookup_app_l_Some, lookup_snoc.
Qed.

(** ** From the heap to the collection *)

Lemma todos_inv (σ : State) (l : list Todo) :
  todos σ = Some l →
  ∃ objs arrs ls td ts,
    σ = mkState objs arrs ls td ∧ arrs !! td = Some (map fst ts) ∧
    Forall (points_to objs) ts ∧ l = map snd ts.
Proof.
  intros (ts & H1 & H2 & H3)%todos_Some. destruct σ as [objs arrs ls td].
  by exists objs, arrs, ls, td, ts.
Qed.

Lemma todos_mkState objs arrs ls td ts :
  arrs !! td = Some (map fst ts) → Forall (points_to objs) ts →
  todos (mkState objs arrs ls td) = Some (map snd ts).
Proof. intros H1 H2. apply todos_Some. by exists ts. Qed.

Lemma fresh_id_spec (l : list Todo) :
  (l = [] ∧ fresh_id l = 1) ∨
  (∃ t, t ∈ l ∧ fresh_id l = id t + 1 ∧ Forall (λ x, id x ≤ id t) l).
Proof.
  destruct l as [|t l]; [by left|right].
  destruct (max_id_in t l) as (x & Hx & Hid).
  destruct (max_id_ge t l) as [Ht Hl].
  exists x. simpl. rewrite Hid. split; [done|]. split; [done|].
  by constructor.
Qed.

Lemma has_title_true (t : Todo) : has_title t = true ↔ title t ≠ "".
Proof. unfold has_title. by destruct (title t). Qed.

Lemma has_title_false (t : Todo) : has_title t = false ↔ title t = "".
Proof. unfold has_title. by destruct (title t). Qed.

Lemma no_empty_title (l : list Todo) :
  Forall (λ t, title t ≠ "") l → existsb (λ t, negb (has_title t)) l = false.
Proof.
  induction 1 as [|t l Ht _ IH]; simpl; [done|].
  apply has_title_true in Ht. by rewrite Ht, IH.
Qed.

Lemma some_empty_title (l : list Todo) :
  Exists (λ t, title t = "") l → existsb (λ t, negb (has_title t)) l = true.
Proof.
  induction 1 as [t l Ht|t l _ IH]; simpl.
  - apply has_title_false in Ht. by rewrite Ht.
  - rewrite IH. apply orb_true_r.
Qed.

Lemma find_id_None (ts : list (loc * Todo)) (i : Z) :
  list_find (λ rt, bool_decide (id rt.2 = i) = true) ts = None ↔
  ¬ ∃ t, t ∈ map snd ts ∧ id t = i.
Proof.
  rewrite list_find_None, Forall_forall. split.
  - intros H (t & Ht & Hid). apply list_elem_of_In, in_map_iff in Ht as ([r t'] & <- & Hin).
    apply (H (r, t')); [by apply list_elem_of_In|]. by apply bool_decide_eq_true.
  - intros H [r t] Hin Hid. apply H. exists t. split.
    + apply list_elem_of_In, in_map_iff. exists (r, t). split; [done|].
      by apply list_elem_of_In.
    + by apply bool_decide_eq_true in Hid.
Qed.

Lemma compare_antisym (s1 s2 : JSString.code_units) :
  JSString.compare s2 s1 = CompOpp (JSString.compare s1 s2).
Proof.
  revert s2. induction s1 as [|a s1 IH]; intros [|b s2]; simpl; try done.
  rewrite (N.compare_antisym a b). destruct (a ?= b)%N; simpl; [apply IH|done..].
Qed.

Lemma compare_le_trans (s1 s2 s3 : JSString.code_units) :
  JSString.compare s1 s2 ≠ Gt → JSString.compare s2 s3 ≠ Gt → JSString.compare s1 s3 ≠ Gt.
Proof.
  revert s2 s3. induction s1 as [|a s1 IH]; intros [|b s2] [|c s3]; simpl; try done.
  destruct (N.compare_spec a b) as [->|Hab|Hab]; [|intros _|done].
  - destruct (c ?= b)%N eqn:Hcb; rewrite (N.compare_antisym c b), Hcb; simpl;
      [apply IH|done..].
  - destruct (N.compare_spec b c) as [->|Hbc|Hbc]; [| |done]; intros _.
    + by apply N.compare_lt_iff in Hab as ->.
    + assert (a < c)%N as ->%N.compare_lt_iff by lia. done.
Qed.

Lemma title_le_trans (x y z : Todo) : title_le x y → title_le y z → title_le x z.
Proof. unfold title_le. apply compare_le_trans. Qed.

Lemma compare_titles_neg (x y : Todo) : compare_titles x y < 0 → title_le x y.
Proof.
  unfold compare_titles, title_le, JSString.gt.
  destruct (JSString.compare _ _); simpl; intros; (done || lia).
Qed.

Lemma compare_titles_nonneg (x y : Todo) : 0 ≤ compare_titles x y → title_le y x.
Proof.
  unfold compare_titles, title_le, JSString.gt.
  rewrite (compare_antisym (JSString.toUpperCase (title x))).
  destruct (JSString.compare _ _); simpl; intros; (done || lia).
Qed.

Lemma filter_all {A : Type} (p : A → bool) (l : list A) :
  Forall (λ x, p x = true) l → List.filter p l = l.
Proof. induction 1 as [|x l Hx _ IH]; simpl; [done|]. by rewrite Hx, IH. Qed.

Lemma filter_idem {A : Type} (p : A → bool) (l : list A) :
  List.filter p (List.filter p l) = List.filter p l.
Proof.
  apply filter_all, Forall_forall. intros x Hx.
  apply list_elem_of_In, filter_In in Hx. tauto.
Qed.

(** In a collection without a repeated id, deleting an id takes out the one
    entry that has it. *)
Lemma filter_unique_id (l : list Todo) (t : Todo) :
  NoDup (map id l) → t ∈ l →
  ∃ l1 l2, l = l1 ++ t :: l2 ∧
           List.filter (λ x, negb (bool_decide (id x = id t))) l = l1 ++ l2.
Proof.
  intros Hnd (l1 & l2 & ->)%list_elem_of_split. exists l1, l2. split; [done|].
  rewrite map_app in Hnd. simpl in Hnd.
  apply NoDup_app in Hnd as (_ & Hl1 & [Hl2 _]%NoDup_cons).
  rewrite List.filter_app. simpl. rewrite bool_decide_eq_true_2 by done. simpl.
  rewrite !filter_all; [done|..]; apply Forall_forall; intros x Hx;
    apply negb_true_iff, bool_decide_eq_false; intros Hid.
  - apply Hl2. rewrite <- Hid. apply list_elem_of_In, in_map, list_elem_of_In, Hx.
  - apply (Hl1 (id x)); [apply list_elem_of_In, in_map, list_elem_of_In, Hx|].
    rewrite Hid. left.
Qed.

Lemma map_snd_reassign_length r t ts :
  length (map snd (reassign r t ts)) = length (map snd ts).
Proof. unfold reassign. by rewrite !length_map. Qed.

(** ** The handlers *)

Section handlers.
Context (objs : list Todo) (arrs : list (list loc)) (ls : gmap string string) (td : loc).
Context (ts : list (loc * Todo)).
Hypothesis Htd : arrs !! td = Some (map fst ts).
Hypothesis Hts : Forall (points_to objs) ts.
Context (doc : list string) (sd : bool) (src : string).
Context (tl : list (Z * string)) (al ln : list string).

Lemma run_service {A : Type} (m : Eff State A) σ c σ' doc' sd' src' tl' al' ln' :
  m σ = (c, σ') →
  service m (mkPage σ doc' sd' src' tl' al' ln') = (c, mkPage σ' doc' sd' src' tl' al' ln').
Proof. intros H. unfold service. simpl. by rewrite H. Qed.

Lemma run_displayTodos :
  displayTodos (mkPage (mkState objs arrs ls td) doc sd src tl al ln)
  = (Normal tt,
     mkPage (mkState objs (arrs ++ [map fst ts]) ls td) doc sd src
            (map (λ rt, (id rt.2, title rt.2)) ts) al ln).
Proof.
  unfold displayTodos.
  eapply bind_Normal; [by apply run_service, run_getTodos|]. cbv beta.
  eapply bind_Normal.
  { apply run_service, run_elements; [apply lookup_snoc|done]. }
  reflexivity.
Qed.
End handlers.

Lemma try_catch_Normal {S A : Type} (m : Eff S A) (h : Error → Eff S A) σ a σ' :
  m σ = (Normal a, σ') → try_catch m h σ = (Normal a, σ').
Proof. unfold try_catch. by intros ->. Qed.

Lemma try_catch_Throw {S A : Type} (m : Eff S A) (h : Error → Eff S A) σ e σ' r :
  m σ = (Throw e, σ') → h e σ' = r → try_catch m h σ = r.
Proof. unfold try_catch. by intros -> ->. Qed.

Lemma page_inv (p : Page) (l : list Todo) :
  todos (store p) = Some l →
  ∃ objs arrs ls td ts doc sd src tl al ln,
    p = mkPage (mkState objs arrs ls td) doc sd src tl al ln ∧
    arrs !! td = Some (map fst ts) ∧ Forall (points_to objs) ts ∧ l = map snd ts.
Proof.
  intros (objs & arrs & ls & td & ts & Hσ & H)%todos_inv.
  destruct p as [σ doc sd src tl al ln]. simpl in Hσ. subst σ.
  by exists objs, arrs, ls, td, ts, doc, sd, src, tl, al, ln.
Qed.

(** ** What a mutation leaves in the storage *)

Lemma elements_in_inv (σ : State) (a : loc) (ts : list (loc * Todo)) :
  elements_in σ a = Some ts →
  arrays σ !! a = Some (map fst ts) ∧ Forall (points_to (objects σ)) ts.
Proof.
  unfold elements_in. intros H.
  destruct (arrays σ !! a) as [refs|]; simplify_eq/=.
  by apply deref_all_Some in H as [-> ?].
Qed.

Lemma elements_in_mkState objs arrs ls td a ts :
  arrs !! a = Some (map fst ts) → Forall (points_to objs) ts →
  elements_in (mkState objs arrs ls td) a = Some ts.
Proof. intros Ha Hts. unfold elements_in. simpl. rewrite Ha. by apply deref_all_map_fst. Qed.

Lemma or_else_stringify (l : list Todo) :
  or_else (Some (JSON.stringify l)) "[]" = JSON.stringify l.
Proof. done. Qed.

(** Every mutation that completes has written the collection it leaves. *)
Lemma perform_persists (op : Mutation) (σ0 σ : State) (l0 : list Todo) :
  todos σ0 = Some l0 → perform op σ0 = (Normal tt, σ) →
  ∃ l, todos σ = Some l ∧ localStorage σ !! TODOS = Some (JSON.stringify l).
Proof.
  intros (objs & arrs & ls & td & ts & -> & Htd & Hts & ->)%todos_inv Hrun.
  destruct op as [title_|i title_|i|direction]; simpl in Hrun.
  - destruct (existsb (λ t, negb (has_title t)) (map snd ts)) eqn:Hex.
    { by rewrite (run_addTodo_fail objs arrs ls td ts Htd Hts title_ Hex) in Hrun. }
    destruct (run_addTodo_ok objs arrs ls td ts Htd Hts title_ Hex) as [garbage Hok].
    rewrite Hok in Hrun. injection Hrun as <-.
    eexists. split; [|apply lookup_insert_eq].
    erewrite todos_mkState; [|apply lookup_snoc|by apply points_to_snoc].
    by rewrite map_app.
  - destruct (decide (title_ = "")) as [->|Hne]; [done|].
    destruct (list_find (λ rt, bool_decide (id rt.2 = i) = true) ts)
      as [[n [r t]]|] eqn:Hfind.
    + rewrite (run_editTodo_found objs arrs ls td ts Htd Hts i title_ n r t Hne Hfind)
        in Hrun.
      injection Hrun as <-. eexists. split; [|apply lookup_insert_eq].
      apply todos_mkState; [apply lookup_snoc|].
      apply points_to_reassign; [|done].
      apply list_find_Some in Hfind as (Hn & _).
      rewrite Forall_forall in Hts. eapply lookup_lt_Some, (Hts (r, t)).
      apply list_elem_of_lookup. eauto.
    + by rewrite (run_editTodo_missing objs arrs ls td ts Htd Hts i title_ Hne Hfind)
        in Hrun.
  - rewrite (run_deleteTodo objs arrs ls td ts Htd Hts i) in Hrun.
    injection Hrun as <-. eexists. split; [|apply lookup_insert_eq].
    apply todos_mkState; [apply lookup_snoc|by apply points_to_filter].
  - rewrite (run_sortTodos objs arrs ls td ts Htd Hts direction) in Hrun.
    injection Hrun as <-. eexists. split; [|apply lookup_insert_eq].
    apply todos_mkState; [apply lookup_snoc|].
    eapply points_to_perm; [|apply points_to_filter, Hts].
    destruct direction; [|rewrite <- Permutation_rev]; by rewrite sort_by_perm.
Qed.

(** What the constructor leaves, by what the storage holds. *)
Lemma TodoService_new_todos (σ : State) (seed : option loc)
    (ss : list (loc * Todo)) (stored : list Todo) :
  JSON.parse (or_else (localStorage σ !! TODOS) "[]") = Some stored →
  seed_elements σ seed = Some ss →
  ∃ σ', TodoService_new seed σ = (Normal tt, σ') ∧
        todos σ' = Some (match stored with [] => map snd ss | _ :: _ => stored end) ∧
        localStorage σ'
        = match stored with
          | [] => <[TODOS := JSON.stringify (map snd ss)]> (localStorage σ)
          | _ :: _ => localStorage σ
          end.
Proof.
  destruct σ as [objs arrs ls td]. simpl. intros Hparse Hseed.
  destruct stored as [|t stored].
  - destruct seed as [s|]; simpl in Hseed.
    + apply elements_in_inv in Hseed as [Hs Hss]. simpl in Hs, Hss.
      eexists. split; [by apply run_TodoService_new_seed|]. simpl.
      split; [|done]. apply todos_mkState; [by apply lookup_app_l_Some|done].
    + injection Hseed as <-.
      eexists. split; [by apply run_TodoService_new_default|]. simpl.
      split; [|done]. apply (todos_mkState _ _ _ _ []); [|done].
      apply lookup_app_l_Some, lookup_snoc.
  - destruct (run_TodoService_new_stored objs arrs ls td (t :: stored) seed Hparse)
      as (garbage & objs' & arrs' & td' & Hrun & -> & -> & ->); [done|].
    eexists. split; [exact Hrun|]. simpl. split; [|done].
    rewrite <- (zip_seq_snd (length objs) (t :: stored)) at 2.
    apply todos_mkState; [apply lookup_snoc|apply points_to_seq].
Qed.

(** ** At most one empty title *)

Lemma empties_snoc (l : list Todo) (t : Todo) :
  existsb (λ t, negb (has_title t)) l = false → at_most_one_empty (l ++ [t]).
Proof.
  intros H. unfold at_most_one_empty. rewrite List.filter_app, length_app.
  assert (List.filter (λ t, negb (has_title t)) l = []) as ->.
  { induction l as [|x l IH]; simpl in *; [done|].
    apply orb_false_iff in H as [-> H]. by apply IH. }
  simpl. destruct (negb (has_title t)); simpl; lia.
Qed.

Lemma empties_filter (p : Todo → bool) (l : list Todo) :
  at_most_one_empty l → at_most_one_empty (List.filter p l).
Proof.
  unfold at_most_one_empty. intros H.
  assert (length (List.filter (λ t, negb (has_title t)) (List.filter p l))
          ≤ length (List.filter (λ t, negb (has_title t)) l))%nat; [|lia].
  clear H. induction l as [|x l IH]; simpl; [done|].
  destruct (p x); simpl; destruct (negb (has_title x)); simpl; lia.
Qed.

Lemma empties_perm (l l' : list Todo) :
  l ≡ₚ l' → at_most_one_empty l → at_most_one_empty l'.
Proof.
  unfold at_most_one_empty. intros H.
  assert (List.filter (λ t, negb (has_title t)) l
          ≡ₚ List.filter (λ t, negb (has_title t)) l') as ->; [|done].
  induction H; simpl; try done.
  - destruct (negb (has_title x)); by rewrite ?IHPermutation.
  - destruct (negb (has_title x)), (negb (has_title y)); try done. apply Permutation_swap.
  - etrans; eauto.
Qed.

Lemma empties_reassign (r : loc) (t : Todo) (ts : list (loc * Todo)) :
  has_title t = true →
  at_most_one_empty (map snd ts) → at_most_one_empty (map snd (reassign r t ts)).
Proof.
  unfold at_most_one_empty. intros Ht H.
  assert (length (List.filter (λ t, negb (has_title t)) (map snd (reassign r t ts)))
          ≤ length (List.filter (λ t, negb (has_title t)) (map snd ts)))%nat; [|lia].
  clear H. induction ts as [|[r' t'] ts IH]; simpl; [done|].
  case_decide; simpl; rewrite ?Ht; simpl; destruct (negb (has_title t')); simpl; lia.
Qed.

(** [addTodo], [deleteTodo] and [sortTodos] keep the collection with at most
    one empty title, and so does [editTodo] with a title that is not empty
    once trimmed. *)
Lemma at_most_one_empty_kept (op : Mutation) (σ σ' : State) (l : list Todo)
    (c : Completion unit) :
  todos σ = Some l → at_most_one_empty l →
  match op with Edit _ title_ => JSString.trim title_ ≠ "" | _ => True end →
  perform op σ = (c, σ') →
  ∃ l', todos σ' = Some l' ∧ at_most_one_empty l'.
Proof.
  intros (objs & arrs & ls & td & ts & -> & Htd & Hts & ->)%todos_inv Hinv Hop Hrun.
  destruct op as [title_|i title_|i|direction]; simpl in Hrun.
  - destruct (existsb (λ t, negb (has_title t)) (map snd ts)) eqn:Hex.
    { rewrite (run_addTodo_fail objs arrs ls td ts Htd Hts title_ Hex) in Hrun.
      injection Hrun as _ <-. exists (map snd ts). split; [|done]. by apply todos_mkState. }
    destruct (run_addTodo_ok objs arrs ls td ts Htd Hts title_ Hex) as [garbage Hok].
    rewrite Hok in Hrun. injection Hrun as _ <-.
    eexists. split; [|by apply empties_snoc].
    erewrite todos_mkState; [|apply lookup_snoc|by apply points_to_snoc].
    by rewrite map_app.
  - destruct (decide (title_ = "")) as [->|Hne]; [done|].
    destruct (list_find (λ rt, bool_decide (id rt.2 = i) = true) ts)
      as [[n [r t]]|] eqn:Hfind.
    + rewrite (run_editTodo_found objs arrs ls td ts Htd Hts i title_ n r t Hne Hfind)
        in Hrun.
      injection Hrun as _ <-. eexists. split.
      * apply todos_mkState; [apply lookup_snoc|].
        apply points_to_reassign; [|done].
        apply list_find_Some in Hfind as (Hn & _).
        rewrite Forall_forall in Hts. eapply lookup_lt_Some, (Hts (r, t)).
        apply list_elem_of_lookup. eauto.
      * apply empties_reassign; [|done]. by apply has_title_true.
    + rewrite (run_editTodo_missing objs arrs ls td ts Htd Hts i title_ Hne Hfind)
        in Hrun.
      injection Hrun as _ <-. exists (map snd ts). split; [|done].
      apply todos_mkState; [by apply lookup_app_l_Some|done].
  - rewrite (run_deleteTodo objs arrs ls td ts Htd Hts i) in Hrun.
    injection Hrun as _ <-. eexists. split.
    + apply todos_mkState; [apply lookup_snoc|by apply points_to_filter].
    + assert (map snd (List.filter (λ rt, negb (bool_decide (id rt.2 = i))) ts)
              = List.filter (λ t, negb (bool_decide (id t = i))) (map snd ts)) as ->
        by exact (map_snd_filter _ ts).
      by apply empties_filter.
  - rewrite (run_sortTodos objs arrs ls td ts Htd Hts direction) in Hrun.
    injection Hrun as _ <-. eexists. split.
    + apply todos_mkState; [apply lookup_snoc|].
      eapply points_to_perm; [|apply points_to_filter, Hts].
      destruct direction; [|rewrite <- Permutation_rev]; by rewrite sort_by_perm.
    + eapply empties_perm; [|apply (empties_filter has_title), Hinv].
      rewrite <- map_snd_filter.
      destruct direction; [|rewrite <- Permutation_rev]; by rewrite sort_by_perm.
Qed.

(** * The claims *)

(** C1. [addTodo(title)]: when no Todo of the collection has an empty title,
    it completes normally, the collection is the old one followed by one new
    Todo whose title is the trimmed argument, no object and no array that
    existed is changed, and the storage holds the new collection; the ids of
    the old collection being safe integers, the id of the new Todo is one
    more than the greatest of them (one when the collection was empty).  When
    some Todo has an empty title, it throws the duplicate-empty-entry error
    and the state, storage included, is the one before the call. *)
Theorem addTodo_appends_or_fails (σ : State) (l : list Todo) (title_ : string) :
  todos σ = Some l →
  (Forall (λ t, title t ≠ "") l →
   ∃ (i : Z) (σ' : State),
     addTodo title_ σ = (Normal tt, σ') ∧
     (safe_ids l →
      (l = [] ∧ i = 1) ∨
      (∃ t, t ∈ l ∧ i = id t + 1 ∧ Forall (λ x, id x ≤ id t) l)) ∧
     todos σ' = Some (l ++ [ {| id := i; title := JSString.trim title_ |} ]) ∧
     objects σ `prefix_of` objects σ' ∧
     arrays σ `prefix_of` arrays σ' ∧
     localStorage σ'
     = <[TODOS := JSON.stringify (l ++ [ {| id := i; title := JSString.trim title_ |} ])]>
         (localStorage σ)) ∧
  (Exists (λ t, title t = "") l →
   addTodo title_ σ = (Throw DuplicateEmptyEntry, σ)).
Proof.
  intros (objs & arrs & ls & td & ts & -> & Htd & Hts & ->)%todos_inv. split.
  - intros Hnone%no_empty_title.
    destruct (run_addTodo_ok objs arrs ls td ts Htd Hts title_ Hnone) as [garbage Hrun].
    exists (fresh_id (map snd ts)). eexists. split; [exact Hrun|].
    split; [intros _; apply fresh_id_spec|]. simpl. repeat split.
    + erewrite todos_mkState; [|apply lookup_snoc|by apply points_to_snoc].
      by rewrite map_app.
    + by apply prefix_app_r.
    + rewrite <- app_assoc. by apply prefix_app_r.
  - intros Hsome%some_empty_title. by apply run_addTodo_fail with (ts := ts).
Qed.

(** C2. [editTodo(id, title)] throws the empty-title error exactly when the
    title it is given is the empty string, before any trimming: a title of
    white space only is not refused for that.  When the title is not empty,
    it throws the not-found error exactly when no Todo of the collection has
    the id.  Whenever it throws, it is one of these two errors, and the
    collection, the objects, the storage and the service's field are as
    before the call. *)
Theorem editTodo_failures (σ : State) (l : list Todo) (i : Z) (title_ : string) :
  todos σ = Some l →
  ((editTodo i title_ σ).1 = Throw EmptyTitle ↔ title_ = "") ∧
  (title_ ≠ "" →
   ((editTodo i title_ σ).1 = Throw (NotFound i) ↔ ¬ ∃ t, t ∈ l ∧ id t = i)) ∧
  (∀ e, (editTodo i title_ σ).1 = Throw e →
        (e = EmptyTitle ∨ e = NotFound i) ∧
        todos (editTodo i title_ σ).2 = Some l ∧
        objects (editTodo i title_ σ).2 = objects σ ∧
        localStorage (editTodo i title_ σ).2 = localStorage σ ∧
        _todos (editTodo i title_ σ).2 = _todos σ ∧
        arrays σ `prefix_of` arrays (editTodo i title_ σ).2).
Proof.
  intros (objs & arrs & ls & td & ts & -> & Htd & Hts & ->)%todos_inv.
  destruct (decide (title_ = "")) as [->|Hne].
  { rewrite run_editTodo_empty. simpl. split; [done|]. split; [done|].
    intros e He. injection He as <-.
    split; [by left|]. split; [by apply todos_mkState|done]. }
  destruct (list_find (λ rt, bool_decide (id rt.2 = i) = true) ts)
    as [[n [r t]]|] eqn:Hfind.
  - rewrite (run_editTodo_found objs arrs ls td ts Htd Hts i title_ n r t Hne Hfind).
    simpl. split; [split; [done|by intros ->]|]. split; [|done].
    intros _. split; [done|]. intros Hnone. apply find_id_None in Hnone.
    by rewrite Hnone in Hfind.
  - rewrite (run_editTodo_missing objs arrs ls td ts Htd Hts i title_ Hne Hfind).
    simpl. split; [split; [done|by intros ->]|]. split.
    + intros _. split; [|done]. intros _. by apply find_id_None.
    + intros e He. injection He as <-. repeat split; try by right.
      * apply todos_mkState; [by apply lookup_app_l_Some|done].
      * by apply prefix_app_r.
Qed.

(** C3. [sortTodos(ascending)]: called with [true], it leaves a collection
    that holds exactly the Todos of the old one whose title is not empty, in
    ascending order of their upper-cased titles; called with [false] on the
    same state, it leaves the reverse of that list.  Either way the result is
    written to the storage and is the collection from then on.  On the titles
    ["b"; "A"; ""] the ascending result is ["A"; "b"] and the descending one
    ["b"; "A"]. *)
Theorem sortTodos_sorts (σ : State) (l : list Todo) :
  todos σ = Some l →
  ∃ (asc : list Todo) (σt σf : State),
    sortTodos true σ = (Normal tt, σt) ∧
    sortTodos false σ = (Normal tt, σf) ∧
    asc ≡ₚ List.filter has_title l ∧
    StronglySorted title_le asc ∧
    todos σt = Some asc ∧
    todos σf = Some (rev asc) ∧
    localStorage σt = <[TODOS := JSON.stringify asc]> (localStorage σ) ∧
    localStorage σf = <[TODOS := JSON.stringify (rev asc)]> (localStorage σ) ∧
    objects σt = objects σ ∧ objects σf = objects σ ∧
    (map title l = ["b"; "A"; ""] →
     map title asc = ["A"; "b"] ∧ map title (rev asc) = ["b"; "A"]).
Proof.
  intros (objs & arrs & ls & td & ts & -> & Htd & Hts & ->)%todos_inv.
  pose proof (run_sortTodos objs arrs ls td ts Htd Hts true) as Ht.
  pose proof (run_sortTodos objs arrs ls td ts Htd Hts false) as Hf.
  cbv zeta in Ht, Hf.
  set (sorted := sort_by (λ x y, compare_titles x.2 y.2)
                         (List.filter (λ rt, has_title rt.2) ts)) in *.
  assert (map snd sorted = sort_by compare_titles (List.filter has_title (map snd ts)))
    as Hsnd.
  { unfold sorted. by rewrite (sort_by_map snd compare_titles), map_snd_filter. }
  assert (Forall (points_to objs) sorted) as Hsorted.
  { eapply points_to_perm; [|apply points_to_filter, Hts].
    unfold sorted. by rewrite sort_by_perm. }
  exists (map snd sorted). do 2 eexists.
  split; [exact Ht|]. split; [exact Hf|]. simpl.
  split; [by rewrite Hsnd, sort_by_perm|].
  split. { rewrite Hsnd. apply sort_by_sorted;
           eauto using title_le_trans, compare_titles_neg, compare_titles_nonneg. }
  split. { by apply todos_mkState; [apply lookup_snoc|]. }
  split. { rewrite <- map_rev. apply todos_mkState; [apply lookup_snoc|].
           eapply points_to_perm; [|exact Hsorted]. apply Permutation_rev. }
  rewrite <- map_rev. do 4 (split; [done|]).
  intros Htitles. rewrite map_rev, Hsnd.
  destruct (map snd ts) as [|[i1 s1] [|[i2 s2] [|[i3 s3] [|]]]]; simplify_eq/=.
  by vm_compute.
Qed.

(** C4 fails on the code: [editTodo] with a title of white space only passes
    the empty-title check and stores the trimmed, empty title.  On the page
    after the first Todo is given the title "a" and a new one is added, the
    collection has one empty title; [editTodo(1, " ")] completes and leaves
    two. *)
Theorem editTodo_second_empty_title :
  let σ := store (run [ChangeInput 1 "a"; ClickAdd] (loaded_page ∅)) in
  todos σ = Some [mkTodo 1 "a"; mkTodo 2 ""] ∧
  at_most_one_empty [mkTodo 1 "a"; mkTodo 2 ""] ∧
  (editTodo 1 " " σ).1 = Normal tt ∧
  todos (editTodo 1 " " σ).2 = Some [mkTodo 1 ""; mkTodo 2 ""] ∧
  ¬ at_most_one_empty [mkTodo 1 ""; mkTodo 2 ""].
Proof.
  cbv zeta. split; [vm_compute; reflexivity|].
  split; [unfold at_most_one_empty; simpl; lia|].
  split; [vm_compute; reflexivity|].
  split; [vm_compute; reflexivity|].
  unfold at_most_one_empty. simpl. lia.
Qed.

(** C5 (as the code has it).  [getTodos()] has no effect on the collection
    and returns a new array that holds the references the collection holds:
    the same Todo objects, not copies of them.  Whatever the caller then puts
    in that array, the collection is as before and a later [getTodos()]
    returns its Todos again; an assignment to the title of an object of
    that array is an assignment to an object of the collection. *)
Theorem getTodos_new_array (σ : State) (l : list Todo) :
  todos σ = Some l →
  ∃ (a : loc) (refs : list loc) (σ1 : State),
    getTodos σ = (Normal a, σ1) ∧
    arrays σ !! a = None ∧
    arrays σ !! _todos σ = Some refs ∧
    arrays σ1 !! a = Some refs ∧
    map snd <$> elements_in σ1 a = Some l ∧
    todos σ1 = Some l ∧
    objects σ1 = objects σ ∧ localStorage σ1 = localStorage σ ∧ _todos σ1 = _todos σ ∧
    (∀ refs' : list loc,
       ∃ (σ2 : State) (a' : loc) (σ3 : State),
         set_array a refs' σ1 = (Normal tt, σ2) ∧
         todos σ2 = Some l ∧
         getTodos σ2 = (Normal a', σ3) ∧
         arrays σ3 !! a' = Some refs ∧
         map snd <$> elements_in σ3 a' = Some l) ∧
    (∀ (n : nat) (r : loc) (s : string),
       refs !! n = Some r →
       ∃ (t : Todo) (σ2 : State) (l2 : list Todo),
         l !! n = Some t ∧
         set_title r s σ1 = (Normal tt, σ2) ∧
         todos σ2 = Some l2 ∧
         l2 !! n = Some {| id := id t; title := s |}).
Proof.
  intros (objs & arrs & ls & td & ts & -> & Htd & Hts & ->)%todos_inv.
  exists (length arrs), (map fst ts). eexists.
  split; [by apply run_getTodos|]. simpl.
  split; [by apply lookup_ge_None|]. split; [done|].
  split; [apply lookup_snoc|].
  split; [by rewrite (elements_in_mkState _ _ _ _ _ ts); [|apply lookup_snoc|]|].
  split; [apply todos_mkState; [by apply lookup_app_l_Some|done]|].
  do 3 (split; [done|]). split.
  - intros refs'. do 3 eexists. split; [apply run_set_array|]. rewrite insert_snoc.
    split; [apply todos_mkState; [by apply lookup_app_l_Some|done]|].
    split; [apply run_getTodos; by apply lookup_app_l_Some|]. simpl.
    split; [apply lookup_snoc|].
    by rewrite (elements_in_mkState _ _ _ _ _ ts); [|apply lookup_snoc|].
  - intros n r s Hn. rewrite lookup_map in Hn.
    destruct (ts !! n) as [[r' t]|] eqn:Ets; simplify_eq/=.
    assert (objs !! r = Some t) as Hrt.
    { rewrite Forall_forall in Hts. apply (Hts (r, t)). apply list_elem_of_lookup. eauto. }
    exists t. do 2 eexists.
    split; [by rewrite lookup_map, Ets|].
    split; [by apply run_set_title|].
    split.
    + apply todos_mkState.
      * rewrite reassign_fst. by apply lookup_app_l_Some.
      * apply points_to_reassign; [|done]. by eapply lookup_lt_Some.
    + unfold reassign. rewrite !lookup_map, Ets. simpl. by rewrite decide_True.
Qed.

(** C5 as stated fails: an assignment to the title of a record of the
    returned array changes the collection and what the next [getTodos()]
    returns. *)
Lemma getTodos_shares_records :
  ∃ (a : loc) (σ1 : State) (r : loc) (σ2 : State) (a' : loc) (σ3 : State),
    todos (service_of [mkTodo 1 "a"]) = Some [mkTodo 1 "a"] ∧
    getTodos (service_of [mkTodo 1 "a"]) = (Normal a, σ1) ∧
    Array_get a 0 σ1 = (Normal r, σ1) ∧
    set_title r "b" σ1 = (Normal tt, σ2) ∧
    todos σ2 = Some [mkTodo 1 "b"] ∧
    getTodos σ2 = (Normal a', σ3) ∧
    map snd <$> elements_in σ3 a' = Some [mkTodo 1 "b"].
Proof. do 6 eexists. repeat split; vm_compute; reflexivity. Qed.

(** C6. [editTodo(id, title)] on a collection that has a Todo with the id,
    with a title that is not empty: it completes normally; the first Todo
    with the id gets the trimmed title and keeps its id; no other object is
    changed; the collection holds the same references in the same order, so
    its length and order are kept; the storage holds the collection after
    the update.  Where the collection holds no object twice, the new
    collection is the old one with that one entry replaced. *)
Theorem editTodo_changes_one_title (σ : State) (l : list Todo) (i : Z) (title_ : string) :
  todos σ = Some l → title_ ≠ "" → (∃ t, t ∈ l ∧ id t = i) →
  ∃ (n : nat) (t : Todo) (r : loc) (refs : list loc) (l' : list Todo) (σ' : State),
    editTodo i title_ σ = (Normal tt, σ') ∧
    l !! n = Some t ∧ id t = i ∧
    (∀ j t', l !! j = Some t' → (j < n)%nat → id t' ≠ i) ∧
    refs !! n = Some r ∧ objects σ !! r = Some t ∧
    objects σ' = <[r := {| id := i; title := JSString.trim title_ |}]> (objects σ) ∧
    arrays σ !! _todos σ = Some refs ∧
    arrays σ' !! _todos σ' = Some refs ∧
    todos σ' = Some l' ∧
    length l' = length l ∧
    l' !! n = Some {| id := i; title := JSString.trim title_ |} ∧
    (∀ j r', refs !! j = Some r' → r' ≠ r → l' !! j = l !! j) ∧
    localStorage σ' = <[TODOS := JSON.stringify l']> (localStorage σ) ∧
    (NoDup refs → l' = <[n := {| id := i; title := JSString.trim title_ |}]> l).
Proof.
  intros (objs & arrs & ls & td & ts & -> & Htd & Hts & ->)%todos_inv Hne Hex.
  destruct (list_find (λ rt, bool_decide (id rt.2 = i) = true) ts)
    as [[n [r t]]|] eqn:Hfind; [|by apply find_id_None in Hfind].
  pose proof (run_editTodo_found objs arrs ls td ts Htd Hts i title_ n r t Hne Hfind)
    as Hrun.
  apply list_find_Some in Hfind as (Hn & Hid%bool_decide_eq_true & Hfirst).
  simpl in Hid. cbv zeta in Hrun. rewrite Hid in Hrun.
  set (t' := {| id := i; title := JSString.trim title_ |}) in *.
  assert (objs !! r = Some t) as Hrt.
  { rewrite Forall_forall in Hts. apply (Hts (r, t)). apply list_elem_of_lookup. eauto. }
  assert (Forall (points_to (<[r := t']> objs)) (reassign r t' ts)) as Hts'.
  { apply points_to_reassign; [|done]. by eapply lookup_lt_Some. }
  exists n, t, r, (map fst ts), (map snd (reassign r t' ts)). eexists.
  split; [exact Hrun|]. simpl.
  split; [by rewrite lookup_map, Hn|]. split; [done|].
  split. { intros j tj Hj Hlt Hidj. rewrite lookup_map in Hj.
           destruct (ts !! j) as [[rj tj']|] eqn:Ej; simplify_eq/=.
           apply (Hfirst j (rj, tj) Ej Hlt). by apply bool_decide_eq_true. }
  split; [by rewrite lookup_map, Hn|]. do 3 (split; [done|]).
  split; [rewrite reassign_fst; apply lookup_snoc|].
  split. { apply todos_mkState; [apply lookup_snoc|done]. }
  split; [apply map_snd_reassign_length|].
  split. { unfold reassign. rewrite !lookup_map, Hn. simpl. by rewrite decide_True. }
  split. { intros j r' Hj Hr'. unfold reassign. rewrite !lookup_map in *.
           destruct (ts !! j) as [[rj tj]|]; simplify_eq/=. by rewrite decide_False. }
  split; [done|].
  intros Hnd. rewrite (reassign_insert r t' ts n t Hnd Hn).
  clear. revert n. induction ts as [|x ts IH]; intros [|n]; simpl; f_equal; auto.
Qed.

(** C7. [deleteTodo(id)] never throws: it leaves the Todos whose id is not the
    given one, in their order, and writes them to the storage.  On a
    collection without a repeated id that has a Todo with the id, exactly
    that entry goes and the others stay as they were; on a collection without
    the id nothing changes; a second [deleteTodo(id)] leaves the collection
    of the first, and writes it again. *)
Theorem deleteTodo_removes (σ : State) (l : list Todo) (i : Z) :
  todos σ = Some l →
  ∃ (l' : list Todo) (σ' σ'' : State),
    deleteTodo i σ = (Normal tt, σ') ∧
    l' = List.filter (λ t, negb (bool_decide (id t = i))) l ∧
    todos σ' = Some l' ∧
    localStorage σ' = <[TODOS := JSON.stringify l']> (localStorage σ) ∧
    objects σ' = objects σ ∧
    (NoDup (map id l) → ∀ t, t ∈ l → id t = i →
       ∃ l1 l2, l = l1 ++ t :: l2 ∧ l' = l1 ++ l2) ∧
    ((∀ t, t ∈ l → id t ≠ i) → l' = l) ∧
    deleteTodo i σ' = (Normal tt, σ'') ∧
    todos σ'' = Some l' ∧
    localStorage σ'' = localStorage σ'.
Proof.
  intros (objs & arrs & ls & td & ts & -> & Htd & Hts & ->)%todos_inv.
  pose proof (run_deleteTodo objs arrs ls td ts Htd Hts i) as Hrun.
  cbv zeta in Hrun.
  set (ts' := List.filter (λ rt, negb (bool_decide (id rt.2 = i))) ts) in *.
  assert (Forall (points_to objs) ts') as Hts' by (by apply points_to_filter).
  assert (map snd ts' = List.filter (λ t, negb (bool_decide (id t = i))) (map snd ts))
    as Hsnd by exact (map_snd_filter (λ t, negb (bool_decide (id t = i))) ts).
  pose proof (run_deleteTodo objs (arrs ++ [map fst ts'])
                (<[TODOS := JSON.stringify (map snd ts')]> ls) (length arrs) ts'
                (lookup_snoc _ _) Hts' i) as Hrun'.
  cbv zeta in Hrun'.
  assert (List.filter (λ rt, negb (bool_decide (id rt.2 = i))) ts' = ts') as Hidem
    by apply filter_idem.
  rewrite Hidem in Hrun'.
  exists (map snd ts'). do 2 eexists.
  split; [exact Hrun|]. split; [done|]. simpl.
  split; [by apply todos_mkState; [apply lookup_snoc|]|].
  do 2 (split; [done|]).
  split. { intros Hnd t Ht <-. rewrite Hsnd. by apply filter_unique_id. }
  split. { intros Hnone. rewrite Hsnd. apply filter_all, Forall_forall.
           intros t Ht. apply negb_true_iff, bool_decide_eq_false. by apply Hnone. }
  split; [exact Hrun'|]. simpl.
  split; [by apply todos_mkState; [apply lookup_snoc|]|].
  by rewrite insert_insert_eq.
Qed.

(** C8 (as the code has it).  A mutation that completes has written the
    collection it leaves to the storage.  A service constructed afterwards on
    that storage has that collection again, same ids, titles and order, when
    the collection is not empty; when it is empty, the new service takes the
    Todos of the array it is constructed with, which is the same only when
    that array is empty too. *)
Theorem reconstruct_after_mutation (op : Mutation) (σ0 σ σn : State) (l0 : list Todo)
    (seed : option loc) (ss : list (loc * Todo)) :
  todos σ0 = Some l0 →
  perform op σ0 = (Normal tt, σ) →
  localStorage σn = localStorage σ →
  seed_elements σn seed = Some ss →
  ∃ (l : list Todo) (σ' : State),
    todos σ = Some l ∧
    localStorage σ !! TODOS = Some (JSON.stringify l) ∧
    TodoService_new seed σn = (Normal tt, σ') ∧
    todos σ' = Some (match l with [] => map snd ss | _ :: _ => l end) ∧
    (l ≠ [] ∨ ss = [] → todos σ' = Some l) ∧
    (l = [] →
     localStorage σ' = <[TODOS := JSON.stringify (map snd ss)]> (localStorage σn)).
Proof.
  intros Hl0 Hrun Hls Hseed.
  destruct (perform_persists op σ0 σ l0 Hl0 Hrun) as (l & Hl & Hstored).
  assert (JSON.parse (or_else (localStorage σn !! TODOS) "[]") = Some l) as Hparse.
  { rewrite Hls, Hstored, or_else_stringify. apply parse_stringify. }
  destruct (TodoService_new_todos σn seed ss l Hparse Hseed)
    as (σ' & Hnew & Htodos & Hstorage).
  exists l, σ'. do 4 (split; [done|]). split.
  - intros H. rewrite Htodos. destruct l; [|done].
    by destruct H as [?| ->].
  - by intros ->.
Qed.

(** C8 as stated fails: after the last Todo is deleted the storage holds an
    empty collection, and the service the page constructs on it has the
    page's seed Todo instead. *)
Lemma reconstruct_empty_takes_seed :
  todos (store (after (ClickDelete 1) (loaded_page ∅))) = Some [] ∧
  todos (store (loaded_page
                  (localStorage (store (after (ClickDelete 1) (loaded_page ∅))))))
  = Some [mkTodo 1 ""].
Proof. split; vm_compute; reflexivity. Qed.

(** C9 (as the code has it).  The sort direction of the page: [_init]
    sets it to ascending; a click on the sort button sorts in the direction
    the page had before the click and then toggles it; a click on the add
    button whose [addTodo] succeeds sets it to ascending; a click on the add
    button whose [addTodo] fails leaves the direction, and the collection, as
    they were and shows the error. *)
Theorem sort_direction_machine (p : Page) (l : list Todo) :
  todos (store p) = Some l →
  (Forall (λ s, s ∈ document p) ["#todo-list"; "#add-button"; "#sort-button"] →
   ∃ p', DOMManipulator_init p = (Normal tt, p') ∧ _sortDir p' = true ∧
         todos (store p') = Some l) ∧
  (∃ c p' σ',
     _handleSort p = (c, p') ∧ _sortDir p' = negb (_sortDir p) ∧
     sortTodos (_sortDir p) (store p) = (Normal tt, σ') ∧
     todos (store p') = todos σ') ∧
  (Forall (λ t, title t ≠ "") l →
   ∃ p', _handleAdd p = (Normal tt, p') ∧ _sortDir p' = true ∧
         ∃ t, todos (store p') = Some (l ++ [t]) ∧ title t = "") ∧
  (Exists (λ t, title t = "") l →
   ∃ p', _handleAdd p = (Normal tt, p') ∧ _sortDir p' = _sortDir p ∧
         todos (store p') = Some l ∧
         alerts p' = alerts p ++ [message DuplicateEmptyEntry]).
Proof.
  intros (objs & arrs & ls & td & ts & doc & sd & src & tl & al & ln & -> & Htd & Hts & ->)%page_inv.
  simpl. repeat apply conj.
  - intros [H1 [H2 [H3 _]%Forall_cons]%Forall_cons]%Forall_cons.
    eexists. split; [|split].
    + unfold DOMManipulator_init, _getElement, querySelector.
      eapply bind_Normal.
      { eapply bind_Normal; [reflexivity|]. cbv beta. simpl.
        by rewrite bool_decide_eq_true_2. }
      cbv beta. eapply bind_Normal.
      { eapply bind_Normal; [reflexivity|]. cbv beta. simpl.
        by rewrite bool_decide_eq_true_2. }
      cbv beta. eapply bind_Normal; [reflexivity|].
      cbv beta. eapply bind_Normal.
      { eapply bind_Normal; [reflexivity|]. cbv beta. simpl.
        by rewrite bool_decide_eq_true_2. }
      cbv beta. eapply bind_Normal; [reflexivity|].
      cbv beta. eapply bind_Normal; [reflexivity|]. cbv beta.
      by apply run_displayTodos.
    + done.
    + simpl. apply todos_mkState; [by apply lookup_app_l_Some|done].
  - pose proof (run_sortTodos objs arrs ls td ts Htd Hts sd) as Hsort. cbv zeta in Hsort.
    set (ts' := if sd then _ else _) in Hsort.
    assert (Forall (points_to objs) ts') as Hts'.
    { unfold ts'. eapply points_to_perm; [|apply points_to_filter, Hts].
      destruct sd; [|rewrite <- Permutation_rev]; by rewrite sort_by_perm. }
    destruct (bool_decide ("#sort-button" ∈ doc)) eqn:Hbtn.
    + do 3 eexists. split; [|split; [|split; [exact Hsort|]]].
      * unfold _handleSort.
        eapply bind_Normal; [reflexivity|]. cbv beta.
        eapply bind_Normal; [apply run_service, Hsort|]. cbv beta.
        eapply bind_Normal; [reflexivity|]. cbv beta.
        eapply bind_Normal; [reflexivity|]. cbv beta. simpl. rewrite Hbtn.
        eapply bind_Normal; [reflexivity|]. cbv beta.
        eapply bind_Normal; [reflexivity|]. cbv beta.
        apply run_displayTodos with (ts := ts'); [apply lookup_snoc|done].
      * done.
      * simpl. rewrite !(todos_mkState _ _ _ _ ts'); try done;
          [apply lookup_snoc|apply lookup_app_l_Some, lookup_snoc].
    + do 3 eexists. split; [|split; [|split; [exact Hsort|]]].
      * unfold _handleSort.
        eapply bind_Normal; [reflexivity|]. cbv beta.
        eapply bind_Normal; [apply run_service, Hsort|]. cbv beta.
        eapply bind_Normal; [reflexivity|]. cbv beta.
        eapply bind_Normal; [reflexivity|]. cbv beta. simpl. rewrite Hbtn.
        eapply bind_Normal; [reflexivity|]. cbv beta.
        apply bind_Throw. reflexivity.
      * done.
      * done.
  - intros Hnone%no_empty_title.
    destruct (run_addTodo_ok objs arrs ls td ts Htd Hts "" Hnone) as [garbage Hadd].
    cbv zeta in Hadd.
    set (t := Todo_new (fresh_id (map snd ts)) "") in *.
    eexists. split; [|split].
    + unfold _handleAdd. apply try_catch_Normal.
      eapply bind_Normal; [apply run_service, Hadd|]. cbv beta.
      eapply bind_Normal; [reflexivity|]. cbv beta.
      apply run_displayTodos with (ts := ts ++ [(length objs, t)]);
        [apply lookup_snoc|by apply points_to_snoc].
    + done.
    + exists t. split; [|done]. simpl.
      rewrite (todos_mkState _ _ _ _ (ts ++ [(length objs, t)])).
      * by rewrite map_app.
      * apply lookup_app_l_Some, lookup_snoc.
      * by apply points_to_snoc.
  - intros Hsome%some_empty_title.
    pose proof (run_addTodo_fail objs arrs ls td ts Htd Hts "" Hsome) as Hadd.
    eexists. split; [|split; [|split]].
    + unfold _handleAdd. eapply try_catch_Throw.
      { apply bind_Throw. apply run_service, Hadd. }
      unfold _showError. eapply bind_Normal; [reflexivity|]. cbv beta.
      by apply run_displayTodos.
    + done.
    + simpl. apply todos_mkState; [by apply lookup_app_l_Some|done].
    + done.
Qed.

(** C9 as stated fails: after a sort the direction is descending; a click on
    the add button while a Todo has an empty title fails and leaves it
    descending. *)
Lemma failed_add_keeps_direction :
  let p := run [ChangeInput 1 "a"; ClickSort; ChangeInput 1 " "] (loaded_page ∅) in
  _sortDir p = false ∧
  (service (addTodo "") p).1 = Throw DuplicateEmptyEntry ∧
  (_handleAdd p).1 = Normal tt ∧
  _sortDir (after ClickAdd p) = false.
Proof. cbv zeta. repeat split; vm_compute; reflexivity. Qed.

(** C10.  The constructor does not trim.  On a storage without Todos the
    collection is the seed array itself, its titles as they are, and that is
    what is written to the storage and what [getTodos()] returns; on a
    storage with Todos, whose ids are safe integers, the collection is the
    Todos read from it, their titles as they are. *)
Theorem constructor_keeps_titles (σ : State) (seed : loc) (ss : list (loc * Todo))
    (stored : list Todo) :
  JSON.parse (or_else (localStorage σ !! TODOS) "[]") = Some stored →
  safe_ids stored →
  elements_in σ seed = Some ss →
  ∃ (σ' : State) (a : loc) (σ'' : State),
    TodoService_new (Some seed) σ = (Normal tt, σ') ∧
    todos σ' = Some (match stored with [] => map snd ss | _ :: _ => stored end) ∧
    (stored = [] →
     _todos σ' = seed ∧
     localStorage σ' = <[TODOS := JSON.stringify (map snd ss)]> (localStorage σ)) ∧
    (stored ≠ [] → localStorage σ' = localStorage σ) ∧
    getTodos σ' = (Normal a, σ'') ∧
    map snd <$> elements_in σ'' a
    = Some (match stored with [] => map snd ss | _ :: _ => stored end).
Proof.
  intros Hparse _ Hseed.
  destruct (TodoService_new_todos σ (Some seed) ss stored Hparse Hseed)
    as (σ' & Hnew & Htodos & Hls).
  pose proof Htodos as (objs & arrs & ls & td & ts & -> & Htd & Hts & Heq)%todos_inv.
  exists (mkState objs arrs ls td). do 2 eexists.
  split; [exact Hnew|]. split; [exact Htodos|].
  split. { intros ->. split; [|done].
           destruct σ as [objs0 arrs0 ls0 td0]. simpl in *.
           apply elements_in_inv in Hseed as [Hs Hss]. simpl in *.
           rewrite (run_TodoService_new_seed objs0 arrs0 ls0 td0 seed ss) in Hnew by done.
           by injection Hnew as _ _ _ <-. }
  split. { intros Hne. by destruct stored. }
  split; [by apply run_getTodos|]. simpl.
  rewrite (elements_in_mkState _ _ _ _ _ ts); [by rewrite Heq|apply lookup_snoc|done].
Qed.

(** * The theorems at work *)

(** [addTodo("  foo  ")] on the ids 1 and 5 appends a Todo with id 6 and title
    "foo"; [addTodo("x")] on a collection with an empty title throws and
    changes nothing. *)
Lemma addTodo_appends_or_fails_witness :
  (∃ σ', addTodo "  foo  " (service_of [mkTodo 1 "a"; mkTodo 5 "b"]) = (Normal tt, σ') ∧
         todos σ' = Some [mkTodo 1 "a"; mkTodo 5 "b"; mkTodo 6 "foo"]) ∧
  addTodo "x" (service_of [mkTodo 1 ""]) = (Throw DuplicateEmptyEntry, service_of [mkTodo 1 ""]).
Proof.
  split.
  - destruct (addTodo_appends_or_fails (service_of [mkTodo 1 "a"; mkTodo 5 "b"])
                [mkTodo 1 "a"; mkTodo 5 "b"] "  foo  ") as [Hok _];
      [vm_compute; reflexivity|].
    destruct Hok as (i & σ' & Hrun & Hid & Htodos & _).
    { repeat constructor; discriminate. }
    exists σ'. split; [exact Hrun|]. rewrite Htodos.
    destruct Hid as [[Hnil _]|(t & Ht & -> & Hmax)];
      [repeat constructor; unfold safe_integer; simpl; lia|discriminate|].
    apply Forall_cons in Hmax as [_ [Hmax _]%Forall_cons]. simpl in Hmax.
    apply elem_of_cons in Ht as [->|Ht]; [simpl in Hmax; lia|].
    apply list_elem_of_singleton in Ht as ->. reflexivity.
  - apply (addTodo_appends_or_fails (service_of [mkTodo 1 ""]) [mkTodo 1 ""] "x");
      [vm_compute; reflexivity|].
    constructor. reflexivity.
Defined.

(** A title of one space is not refused as empty; an id that no Todo has is
    refused, and the collection stays. *)
Lemma editTodo_failures_witness :
  (editTodo 1 " " (service_of [mkTodo 1 "a"])).1 ≠ Throw EmptyTitle ∧
  (editTodo 7 "x" (service_of [mkTodo 1 "a"])).1 = Throw (NotFound 7) ∧
  todos (editTodo 7 "x" (service_of [mkTodo 1 "a"])).2 = Some [mkTodo 1 "a"].
Proof.
  assert (todos (service_of [mkTodo 1 "a"]) = Some [mkTodo 1 "a"]) as H
    by (vm_compute; reflexivity).
  split; [|split].
  - destruct (editTodo_failures _ _ 1 " " H) as [Hempty _].
    intros He. apply Hempty in He. discriminate He.
  - destruct (editTodo_failures _ _ 7 "x" H) as (_ & Hmissing & _).
    apply Hmissing; [discriminate|].
    intros (t & Ht & Hid). apply list_elem_of_In in Ht. simpl in Ht.
    destruct Ht as [<-|[]]. discriminate Hid.
  - destruct (editTodo_failures _ _ 7 "x" H) as (_ & _ & Hkept).
    apply (Hkept (NotFound 7)). vm_compute. reflexivity.
Defined.

(** The example of the specification: titles "b", "A" and the empty one. *)
Lemma sortTodos_sorts_witness :
  ∃ σt σf,
    sortTodos true (service_of [mkTodo 1 "b"; mkTodo 2 "A"; mkTodo 3 ""]) = (Normal tt, σt) ∧
    sortTodos false (service_of [mkTodo 1 "b"; mkTodo 2 "A"; mkTodo 3 ""]) = (Normal tt, σf) ∧
    map title <$> todos σt = Some ["A"; "b"] ∧
    map title <$> todos σf = Some ["b"; "A"].
Proof.
  destruct (sortTodos_sorts (service_of [mkTodo 1 "b"; mkTodo 2 "A"; mkTodo 3 ""])
              [mkTodo 1 "b"; mkTodo 2 "A"; mkTodo 3 ""])
    as (asc & σt & σf & Ht & Hf & _ & _ & Htt & Htf & _ & _ & _ & _ & Hex);
    [vm_compute; reflexivity|].
  destruct Hex as [Hasc Hdesc]; [reflexivity|].
  exists σt, σf. rewrite Htt, Htf. simpl. rewrite Hasc, Hdesc. done.
Defined.

(** The array of [getTodos()] is new, and the collection is as before. *)
Lemma getTodos_new_array_witness :
  ∃ a σ1, getTodos (service_of [mkTodo 1 "a"]) = (Normal a, σ1) ∧
          a ≠ _todos (service_of [mkTodo 1 "a"]) ∧
          todos σ1 = Some [mkTodo 1 "a"].
Proof.
  destruct (getTodos_new_array (service_of [mkTodo 1 "a"]) [mkTodo 1 "a"])
    as (a & refs & σ1 & Hrun & Hnew & Hold & _ & _ & Htodos & _);
    [vm_compute; reflexivity|].
  exists a, σ1. split; [exact Hrun|]. split; [|exact Htodos].
  intros ->. rewrite Hnew in Hold. discriminate Hold.
Defined.

(** The example of the specification: [editTodo(2, "  bar  ")]. *)
Lemma editTodo_changes_one_title_witness :
  ∃ σ', editTodo 2 "  bar  " (service_of [mkTodo 1 "a"; mkTodo 2 "b"; mkTodo 3 "c"])
        = (Normal tt, σ') ∧
        todos σ' = Some [mkTodo 1 "a"; mkTodo 2 "bar"; mkTodo 3 "c"].
Proof.
  destruct (editTodo_changes_one_title
              (service_of [mkTodo 1 "a"; mkTodo 2 "b"; mkTodo 3 "c"])
              [mkTodo 1 "a"; mkTodo 2 "b"; mkTodo 3 "c"] 2 "  bar  ")
    as (n & t & r & refs & l' & σ' & Hrun & _);
    [vm_compute; reflexivity|discriminate| |].
  - exists (mkTodo 2 "b"). split; [|reflexivity]. apply list_elem_of_In. simpl. tauto.
  - exists σ'. split; [exact Hrun|].
    vm_compute in Hrun. injection Hrun as <-. vm_compute. reflexivity.
Defined.

(** [deleteTodo(2)] takes out the Todo with id 2, once. *)
Lemma deleteTodo_removes_witness :
  ∃ σ' σ'',
    deleteTodo 2 (service_of [mkTodo 1 "a"; mkTodo 2 "b"; mkTodo 3 "c"]) = (Normal tt, σ') ∧
    todos σ' = Some [mkTodo 1 "a"; mkTodo 3 "c"] ∧
    deleteTodo 2 σ' = (Normal tt, σ'') ∧
    todos σ'' = Some [mkTodo 1 "a"; mkTodo 3 "c"].
Proof.
  destruct (deleteTodo_removes (service_of [mkTodo 1 "a"; mkTodo 2 "b"; mkTodo 3 "c"])
              [mkTodo 1 "a"; mkTodo 2 "b"; mkTodo 3 "c"] 2)
    as (l' & σ' & σ'' & Hrun & -> & Htodos & _ & _ & _ & _ & Hrun' & Htodos' & _);
    [vm_compute; reflexivity|].
  exists σ', σ''. done.
Defined.

(** After [deleteTodo(2)] leaves one Todo, a page that starts on that storage
    and constructs the service without an argument has that Todo. *)
Lemma reconstruct_after_mutation_witness :
  ∃ σ',
    TodoService_new None
      (mkState [] [] (localStorage (deleteTodo 2 (service_of [mkTodo 1 "a"; mkTodo 2 "b"])).2)
               0%nat)
    = (Normal tt, σ') ∧
    todos σ' = Some [mkTodo 1 "a"].
Proof.
  destruct (reconstruct_after_mutation (Delete 2)
              (service_of [mkTodo 1 "a"; mkTodo 2 "b"])
              (deleteTodo 2 (service_of [mkTodo 1 "a"; mkTodo 2 "b"])).2
              (mkState [] []
                 (localStorage (deleteTodo 2 (service_of [mkTodo 1 "a"; mkTodo 2 "b"])).2)
                 0%nat)
              [mkTodo 1 "a"; mkTodo 2 "b"] None [])
    as (l & σ' & Hl & _ & Hnew & _ & Hsame & _);
    [vm_compute; reflexivity|vm_compute; reflexivity|reflexivity|reflexivity|].
  exists σ'. split; [exact Hnew|].
  rewrite Hsame by (by right). rewrite <- Hl. vm_compute. reflexivity.
Defined.

(** On the page as loaded, with its one empty title, a click on the add
    button fails and the direction stays; after a click on the sort button,
    which drops that Todo and makes the direction descending, a click on the
    add button succeeds and the direction is ascending. *)
Lemma sort_direction_machine_witness :
  (∃ p', _handleAdd (loaded_page ∅) = (Normal tt, p') ∧
         _sortDir p' = _sortDir (loaded_page ∅) ∧
         todos (store p') = Some [mkTodo 1 ""]) ∧
  _sortDir (after ClickSort (loaded_page ∅)) = false ∧
  (∃ p', _handleAdd (after ClickSort (loaded_page ∅)) = (Normal tt, p') ∧
         _sortDir p' = true).
Proof.
  split; [|split].
  - destruct (sort_direction_machine (loaded_page ∅) [mkTodo 1 ""]) as (_ & _ & _ & Hfail);
      [vm_compute; reflexivity|].
    destruct Hfail as (p' & Hrun & Hdir & Htodos & _); [constructor; reflexivity|].
    exists p'. split; [exact Hrun|]. split; [exact Hdir|exact Htodos].
  - vm_compute. reflexivity.
  - destruct (sort_direction_machine (after ClickSort (loaded_page ∅)) [])
      as (_ & _ & Hok & _); [vm_compute; reflexivity|].
    destruct Hok as (p' & Hrun & Hdir & _); [constructor|].
    exists p'. split; [exact Hrun|exact Hdir].
Defined.

(** A seed title with white space at both ends stays as it is, in the
    collection and in the storage; so does a title read from the storage. *)
Lemma constructor_keeps_titles_witness :
  JSString.trim "  x  " = "x" ∧
  (∃ σ', TodoService_new (Some 0%nat) (mkState [mkTodo 1 "  x  "] [[0%nat]] ∅ 0%nat)
         = (Normal tt, σ') ∧
         todos σ' = Some [mkTodo 1 "  x  "] ∧
         localStorage σ' !! TODOS = Some (JSON.stringify [mkTodo 1 "  x  "])) ∧
  (∃ σ', TodoService_new (Some 0%nat)
           (mkState [mkTodo 1 "  x  "] [[0%nat]]
                    {[ TODOS := JSON.stringify [mkTodo 4 " y "] ]} 0%nat)
         = (Normal tt, σ') ∧
         todos σ' = Some [mkTodo 4 " y "]).
Proof.
  split; [reflexivity|split].
  - destruct (constructor_keeps_titles
                (mkState [mkTodo 1 "  x  "] [[0%nat]] ∅ 0%nat) 0%nat
                [(0%nat, mkTodo 1 "  x  ")] [])
      as (σ' & a & σ'' & Hnew & Htodos & Hseed & _);
      [vm_compute; reflexivity|constructor|vm_compute; reflexivity|].
    exists σ'. split; [exact Hnew|]. split; [exact Htodos|].
    destruct Hseed as [_ ->]; [reflexivity|]. apply lookup_insert_eq.
  - destruct (constructor_keeps_titles
                (mkState [mkTodo 1 "  x  "] [[0%nat]]
                         {[ TODOS := JSON.stringify [mkTodo 4 " y "] ]} 0%nat) 0%nat
                [(0%nat, mkTodo 1 "  x  ")] [mkTodo 4 " y "])
      as (σ' & a & σ'' & Hnew & Htodos & _);
      [vm_compute; reflexivity
      |repeat constructor; unfold safe_integer; simpl; lia
      |vm_compute; reflexivity|].
    by exists σ'.
Defined.

(** * Further properties of the code *)

(** ** The methods on a well-formed state *)

Lemma state_addTodo_fail (σ : State) (l : list Todo) (title_ : string) :
  todos σ = Some l → existsb (λ t, negb (has_title t)) l = true →
  addTodo title_ σ = (Throw DuplicateEmptyEntry, σ).
Proof.
  intros (objs & arrs & ls & td & ts & -> & Htd & Hts & ->)%todos_inv Hex.
  by apply run_addTodo_fail with (ts := ts).
Qed.

Lemma state_addTodo_ok (σ : State) (l : list Todo) (title_ : string) :
  todos σ = Some l → existsb (λ t, negb (has_title t)) l = false →
  ∃ σ', addTodo title_ σ = (Normal tt, σ') ∧
        todos σ' = Some (l ++ [Todo_new (fresh_id l) title_]) ∧
        localStorage σ'
        = <[TODOS := JSON.stringify (l ++ [Todo_new (fresh_id l) title_])]> (localStorage σ).
Proof.
  intros (objs & arrs & ls & td & ts & -> & Htd & Hts & ->)%todos_inv Hex.
  destruct (run_addTodo_ok objs arrs ls td ts Htd Hts title_ Hex) as [garbage Hok].
  eexists. split; [exact Hok|]. simpl. split; [|done].
  erewrite todos_mkState; [|apply lookup_snoc|by apply points_to_snoc].
  by rewrite map_app.
Qed.

Lemma state_deleteTodo (σ : State) (l : list Todo) (i : Z) :
  todos σ = Some l →
  ∃ σ', deleteTodo i σ = (Normal tt, σ') ∧
        todos σ' = Some (List.filter (λ t, negb (bool_decide (id t = i))) l) ∧
        localStorage σ'
        = <[TODOS := JSON.stringify (List.filter (λ t, negb (bool_decide (id t = i))) l)]>
            (localStorage σ).
Proof.
  intros (objs & arrs & ls & td & ts & -> & Htd & Hts & ->)%todos_inv.
  assert (map snd (List.filter (λ rt, negb (bool_decide (id rt.2 = i))) ts)
          = List.filter (λ t, negb (bool_decide (id t = i))) (map snd ts)) as Hsnd
    by exact (map_snd_filter _ ts).
  eexists. split; [by apply run_deleteTodo|]. simpl. rewrite <- Hsnd. split; [|done].
  apply todos_mkState; [apply lookup_snoc|by apply points_to_filter].
Qed.

Lemma state_sortTodos (σ : State) (l : list Todo) (direction : bool) :
  todos σ = Some l →
  ∃ σ' l', sortTodos direction σ = (Normal tt, σ') ∧
           leaves (Sort direction) l l' ∧
           todos σ' = Some l' ∧
           localStorage σ' = <[TODOS := JSON.stringify l']> (localStorage σ).
Proof.
  intros (objs & arrs & ls & td & ts & -> & Htd & Hts & ->)%todos_inv.
  pose proof (run_sortTodos objs arrs ls td ts Htd Hts direction) as Hrun.
  cbv zeta in Hrun.
  set (sorted := sort_by (λ x y, compare_titles x.2 y.2)
                         (List.filter (λ rt, has_title rt.2) ts)) in *.
  set (ts' := if direction then sorted else rev sorted) in *.
  assert (map snd sorted = sort_by compare_titles (List.filter has_title (map snd ts)))
    as Hsnd.
  { unfold sorted. by rewrite (sort_by_map snd compare_titles), map_snd_filter. }
  assert (Forall (points_to objs) ts') as Hts'.
  { eapply points_to_perm; [|apply points_to_filter, Hts].
    unfold ts', sorted. destruct direction; [|rewrite <- Permutation_rev];
      by rewrite sort_by_perm. }
  exists (mkState objs ((arrs ++ [map fst ts]) ++ [map fst ts'])
                  (<[TODOS := JSON.stringify (map snd ts')]> ls)
                  (length (arrs ++ [map fst ts]))), (map snd ts').
  split; [exact Hrun|]. split; [|split; [|done]].
  - simpl. unfold ts'. destruct direction; [done|]. by rewrite map_rev, Hsnd.
  - apply todos_mkState; [apply lookup_snoc|done].
Qed.

Lemma reassign_edited objs r t s ts :
  objs !! r = Some t → Forall (points_to objs) ts →
  Forall2 (edited (id t) s) (map snd ts)
          (map snd (reassign r {| id := id t; title := s |} ts)).
Proof.
  intros Hr. induction 1 as [|[r' x] ts Hx _ IH]; simpl; constructor; [|done].
  unfold points_to in Hx. simpl in *. case_decide; simpl; [|by left].
  subst. right. by simplify_eq.
Qed.

Lemma state_editTodo (σ : State) (l : list Todo) (i : Z) (title_ : string) :
  todos σ = Some l → title_ ≠ "" →
  ((¬ ∃ x, x ∈ l ∧ id x = i) ∧
   ∃ σ', editTodo i title_ σ = (Throw (NotFound i), σ') ∧
         todos σ' = Some l ∧ localStorage σ' = localStorage σ) ∨
  ((∃ x, x ∈ l ∧ id x = i) ∧
   ∃ σ' l', editTodo i title_ σ = (Normal tt, σ') ∧
            todos σ' = Some l' ∧ leaves (Edit i title_) l l' ∧
            localStorage σ' = <[TODOS := JSON.stringify l']> (localStorage σ)).
Proof.
  intros (objs & arrs & ls & td & ts & -> & Htd & Hts & ->)%todos_inv Hne.
  destruct (list_find (λ rt, bool_decide (id rt.2 = i) = true) ts)
    as [[n [r t]]|] eqn:Hfind.
  - right.
    pose proof (run_editTodo_found objs arrs ls td ts Htd Hts i title_ n r t Hne Hfind)
      as Hrun. cbv zeta in Hrun.
    apply list_find_Some in Hfind as (Hn & Hid%bool_decide_eq_true & _). simpl in Hid.
    assert (objs !! r = Some t) as Hrt.
    { rewrite Forall_forall in Hts. apply (Hts (r, t)). apply list_elem_of_lookup. eauto. }
    split.
    { exists t. split; [|done]. apply list_elem_of_lookup. exists n.
      by rewrite lookup_map, Hn. }
    do 2 eexists. split; [exact Hrun|]. simpl. split; [|split; [|done]].
    + apply todos_mkState; [apply lookup_snoc|].
      apply points_to_reassign; [|done]. by eapply lookup_lt_Some.
    + split; [done|]. subst i. split; [by apply (reassign_edited objs)|].
      apply list_elem_of_lookup. exists n. unfold reassign.
      rewrite !lookup_map, Hn. simpl. by rewrite decide_True.
  - left. split; [by apply find_id_None|].
    eexists. split; [by apply run_editTodo_missing|]. simpl. split; [|done].
    apply todos_mkState; [by apply lookup_app_l_Some|done].
Qed.

(** Every mutation, on a well-formed state: it throws and leaves the
    collection and the storage, or it completes and has written the
    collection it leaves. *)
Lemma state_perform (op : Mutation) (σ : State) (l : list Todo) :
  todos σ = Some l →
  ∃ c σ' l',
    perform op σ = (c, σ') ∧ todos σ' = Some l' ∧
    ((∃ e, c = Throw e ∧ l' = l ∧ localStorage σ' = localStorage σ) ∨
     (c = Normal tt ∧ leaves op l l' ∧
      localStorage σ' = <[TODOS := JSON.stringify l']> (localStorage σ))).
Proof.
  intros Hl. destruct op as [title_|i title_|i|direction]; simpl.
  - destruct (existsb (λ t, negb (has_title t)) l) eqn:Hex.
    + exists (Throw DuplicateEmptyEntry), σ, l.
      split; [by apply state_addTodo_fail with (l := l)|]. split; [done|]. left. eauto.
    + destruct (state_addTodo_ok σ l title_ Hl Hex) as (σ' & Hrun & Htodos & Hls).
      exists (Normal tt), σ'. eexists. do 2 (split; [done|]). right.
      split; [done|]. split; [|done]. split; [|done].
      apply Forall_forall. intros t Ht. apply has_title_true.
      destruct (has_title t) eqn:E; [done|].
      assert (existsb (λ t, negb (has_title t)) l = true) as Hex'; [|congruence].
      apply existsb_exists. exists t. split; [by apply list_elem_of_In|by rewrite E].
  - destruct (decide (title_ = "")) as [->|Hne].
    { exists (Throw EmptyTitle), σ, l. split; [done|]. split; [done|]. left. eauto. }
    destruct (state_editTodo σ l i title_ Hl Hne)
      as [(_ & σ' & Hrun & Htodos & Hls)|(_ & σ' & l' & Hrun & Htodos & Hleaves & Hls)].
    + exists (Throw (NotFound i)), σ', l. do 2 (split; [done|]). left. eauto.
    + exists (Normal tt), σ', l'. do 2 (split; [done|]). by right.
  - destruct (state_deleteTodo σ l i Hl) as (σ' & Hrun & Htodos & Hls).
    exists (Normal tt), σ'. eexists. do 2 (split; [done|]). by right.
  - destruct (state_sortTodos σ l direction Hl) as (σ' & l' & Hrun & Hleaves & Htodos & Hls).
    exists (Normal tt), σ', l'. do 2 (split; [done|]). by right.
Qed.

(** ** What a mutation does to the ids *)

Lemma filter_elem_of {A : Type} (p : A → bool) (l : list A) (x : A) :
  x ∈ List.filter p l ↔ x ∈ l ∧ p x = true.
Proof. rewrite !list_elem_of_In. apply filter_In. Qed.

Lemma edited_ids (i : Z) (s : string) (l l' : list Todo) :
  Forall2 (edited i s) l l' → map id l' = map id l.
Proof.
  induction 1 as [|x y l l' Hxy _ IH]; simpl; [done|]. f_equal; [|done].
  by destruct Hxy as [->|[<- ->]].
Qed.

Lemma fresh_id_above (l : list Todo) : Forall (λ t, id t < fresh_id l) l.
Proof.
  destruct (fresh_id_spec l) as [[-> _]|(t & _ & -> & Hmax)]; [done|].
  eapply Forall_impl; [exact Hmax|]. simpl. intros. lia.
Qed.

Lemma filter_ids_NoDup (p : Todo → bool) (l : list Todo) :
  NoDup (map id l) → NoDup (map id (List.filter p l)).
Proof.
  induction l as [|x l IH]; simpl; [done|].
  intros [Hx Hl]%NoDup_cons. destruct (p x); simpl; [|by apply IH].
  apply NoDup_cons. split; [|by apply IH].
  intros Hin. apply Hx.
  apply list_elem_of_In, in_map_iff in Hin as (y & Hy & Hin).
  apply list_elem_of_In, in_map_iff. exists y. split; [done|].
  apply filter_In in Hin. tauto.
Qed.

Lemma leaves_perm_of_filter (direction : bool) (l l' : list Todo) :
  leaves (Sort direction) l l' → l' ≡ₚ List.filter has_title l.
Proof.
  simpl. intros ->. destruct direction; [|rewrite <- Permutation_rev]; apply sort_by_perm.
Qed.

Lemma leaves_NoDup (op : Mutation) (l l' : list Todo) :
  leaves op l l' → NoDup (map id l) → NoDup (map id l').
Proof.
  destruct op as [title_|i title_|i|direction]; simpl.
  - intros [_ ->] Hnd. rewrite map_app. apply NoDup_app. split; [done|]. split.
    + intros x Hx [->|[]%elem_of_nil]%elem_of_cons.
      apply list_elem_of_In, in_map_iff in Hx as (t & Ht & Hin).
      pose proof (fresh_id_above l) as Habove. rewrite Forall_forall in Habove.
      apply list_elem_of_In, Habove in Hin. simpl in Ht. lia.
    + apply NoDup_singleton.
  - intros (_ & Hed & _) Hnd. by rewrite (edited_ids _ _ _ _ Hed).
  - intros -> Hnd. by apply filter_ids_NoDup.
  - intros Hl Hnd. apply (leaves_perm_of_filter direction) in Hl.
    rewrite Hl. by apply filter_ids_NoDup.
Qed.

Lemma leaves_positive (op : Mutation) (l l' : list Todo) :
  leaves op l l' → Forall (λ t, 0 < id t) l → Forall (λ t, 0 < id t) l'.
Proof.
  destruct op as [title_|i title_|i|direction]; simpl.
  - intros [_ ->] Hpos. apply Forall_app. split; [done|]. constructor; [|done].
    simpl. destruct (fresh_id_spec l) as [[_ ->]|(t & Ht & -> & _)]; [done|].
    rewrite Forall_forall in Hpos. apply Hpos in Ht. lia.
  - intros (_ & Hed & _) Hpos.
    induction Hed as [|x y l l' Hxy _ IH]; [done|].
    apply Forall_cons in Hpos as [Hx Hl]. constructor; [|by apply IH].
    by destruct Hxy as [->|[<- ->]].
  - intros -> Hpos. rewrite Forall_forall in *. intros t [Ht _]%filter_elem_of. by apply Hpos.
  - intros Hl Hpos. apply (leaves_perm_of_filter direction) in Hl. rewrite Hl.
    rewrite Forall_forall in *. intros t [Ht _]%filter_elem_of. by apply Hpos.
Qed.

Lemma leaves_changes (op : Mutation) (l l' : list Todo) :
  leaves op l l' → changes op l l'.
Proof.
  destruct op as [title_|i title_|i|direction]; simpl.
  - intros [_ ->]. by exists (fresh_id l).
  - by intros (_ & H & _).
  - done.
  - apply (leaves_perm_of_filter direction).
Qed.

(** X1. Ids stay unique.  From a collection whose ids are safe integers and
    in which no two Todos have the same id, every mutation, whether it
    completes or throws, leaves a collection in which no two Todos have the
    same id: the id [_generateId] gives is above every id in use, [editTodo]
    keeps ids, [deleteTodo] and [sortTodos] only drop and reorder. *)
Theorem unique_ids_kept (op : Mutation) (σ : State) (l : list Todo) :
  todos σ = Some l → safe_ids l → NoDup (map id l) →
  ∃ l', todos (perform op σ).2 = Some l' ∧ NoDup (map id l').
Proof.
  intros Hl _ Hnd.
  destruct (state_perform op σ l Hl) as (c & σ' & l' & -> & Hl' & Hcase).
  exists l'. split; [done|].
  destruct Hcase as [(e & _ & -> & _)|(_ & Hleaves & _)]; [done|].
  by apply (leaves_NoDup op l).
Qed.

(** X2. Ids stay positive.  From a collection whose ids are all positive,
    every mutation leaves a collection whose ids are all positive; the first
    id given in an empty collection is 1. *)
Theorem positive_ids_kept (op : Mutation) (σ : State) (l : list Todo) :
  todos σ = Some l → Forall (λ t, 0 < id t) l →
  ∃ l', todos (perform op σ).2 = Some l' ∧ Forall (λ t, 0 < id t) l'.
Proof.
  intros Hl Hpos.
  destruct (state_perform op σ l Hl) as (c & σ' & l' & -> & Hl' & Hcase).
  exists l'. split; [done|].
  destruct Hcase as [(e & _ & -> & _)|(_ & Hleaves & _)]; [done|].
  by apply (leaves_positive op l).
Qed.

(** X3. An id can come back.  When the Todo with the greatest id is deleted,
    the next [addTodo] gives an id that is not above the deleted one: ids are
    unique in the collection, not over time. *)
Theorem deleted_greatest_id_is_reused (σ : State) (l : list Todo) (t : Todo)
    (title_ : string) :
  todos σ = Some l → Forall (λ x, title x ≠ "") l →
  t ∈ l → Forall (λ x, id x ≤ id t) l → 0 < id t →
  ∃ (σ1 σ2 : State) (l1 : list Todo) (i : Z),
    deleteTodo (id t) σ = (Normal tt, σ1) ∧
    todos σ1 = Some l1 ∧ (t ∉ l1) ∧
    addTodo title_ σ1 = (Normal tt, σ2) ∧
    todos σ2 = Some (l1 ++ [ {| id := i; title := JSString.trim title_ |} ]) ∧
    i ≤ id t.
Proof.
  intros Hl Htitles Ht Hmax Hpos.
  destruct (state_deleteTodo σ l (id t) Hl) as (σ1 & Hdel & Hl1 & _).
  set (l1 := List.filter (λ x, negb (bool_decide (id x = id t))) l) in *.
  assert (Forall (λ x, title x ≠ "") l1) as Htitles1.
  { rewrite Forall_forall in *. intros x [Hx _]%filter_elem_of. by apply Htitles. }
  destruct (state_addTodo_ok σ1 l1 title_ Hl1 (no_empty_title l1 Htitles1))
    as (σ2 & Hadd & Hl2 & _).
  exists σ1, σ2, l1, (fresh_id l1). do 2 (split; [done|]).
  split. { intros [_ Hin]%filter_elem_of.
           by rewrite bool_decide_eq_true_2 in Hin. }
  do 2 (split; [done|]).
  destruct (fresh_id_spec l1) as [[_ ->]|(x & Hx & -> & _)]; [lia|].
  apply filter_elem_of in Hx as [Hx Hne].
  apply negb_true_iff, bool_decide_eq_false in Hne.
  rewrite Forall_forall in Hmax. apply Hmax in Hx. lia.
Qed.

(** ** How the methods compose *)

Lemma sorted_has_titles (direction : bool) (l l' : list Todo) :
  leaves (Sort direction) l l' → existsb (λ t, negb (has_title t)) l' = false.
Proof.
  intros Hl%leaves_perm_of_filter.
  destruct (existsb _ l') eqn:E; [|done].
  apply existsb_exists in E as (t & Ht & Hempty).
  apply list_elem_of_In in Ht. rewrite Hl in Ht.
  apply filter_elem_of in Ht as [_ Ht]. by rewrite Ht in Hempty.
Qed.

Lemma empty_title_blocks (l : list Todo) (t : Todo) :
  t ∈ l → title t = "" → existsb (λ t, negb (has_title t)) l = true.
Proof.
  intros Ht Hempty. apply existsb_exists. exists t.
  split; [by apply list_elem_of_In|]. apply has_title_false in Hempty. by rewrite Hempty.
Qed.

(** X4. After [sortTodos], [addTodo] does not fail: the sort has dropped
    every Todo with an empty title, so the guard of [addTodo] passes and the
    new Todo, with the trimmed title, goes to the end of the sorted
    collection. *)
Theorem sort_then_add_succeeds (σ : State) (l : list Todo) (direction : bool)
    (title_ : string) :
  todos σ = Some l →
  ∃ (σ1 σ2 : State) (l1 : list Todo) (i : Z),
    sortTodos direction σ = (Normal tt, σ1) ∧
    todos σ1 = Some l1 ∧ Forall (λ t, title t ≠ "") l1 ∧
    addTodo title_ σ1 = (Normal tt, σ2) ∧
    todos σ2 = Some (l1 ++ [ {| id := i; title := JSString.trim title_ |} ]).
Proof.
  intros Hl.
  destruct (state_sortTodos σ l direction Hl) as (σ1 & l1 & Hsort & Hleaves & Hl1 & _).
  pose proof (sorted_has_titles direction l l1 Hleaves) as Hnone.
  destruct (state_addTodo_ok σ1 l1 title_ Hl1 Hnone) as (σ2 & Hadd & Hl2 & _).
  exists σ1, σ2, l1, (fresh_id l1). do 2 (split; [done|]). split; [|done].
  apply Forall_forall. intros t Ht Hempty.
  by rewrite (empty_title_blocks l1 t Ht Hempty) in Hnone.
Qed.

(** X5. One open row at a time.  An [addTodo] whose title is empty once
    trimmed (the default, or white space) succeeds on a collection without
    empty titles, and from then on every [addTodo], whatever its title, throws
    the duplicate-empty-entry error and changes nothing. *)
Theorem blank_add_blocks_add (σ : State) (l : list Todo) (title_ : string) :
  todos σ = Some l → Forall (λ t, title t ≠ "") l → JSString.trim title_ = "" →
  ∃ (σ1 : State) (i : Z),
    addTodo title_ σ = (Normal tt, σ1) ∧
    todos σ1 = Some (l ++ [ {| id := i; title := "" |} ]) ∧
    ∀ title2, addTodo title2 σ1 = (Throw DuplicateEmptyEntry, σ1).
Proof.
  intros Hl Htitles Hblank.
  destruct (state_addTodo_ok σ l title_ Hl (no_empty_title l Htitles))
    as (σ1 & Hadd & Hl1 & _).
  unfold Todo_new in Hl1. rewrite Hblank in Hl1.
  exists σ1, (fresh_id l). do 2 (split; [done|]). intros title2.
  eapply state_addTodo_fail; [exact Hl1|].
  apply (empty_title_blocks _ {| id := fresh_id l; title := "" |}); [|done].
  apply elem_of_app. right. apply list_elem_of_singleton. done.
Qed.

(** X6. [editTodo] can open a row too.  A title that is not empty but is
    white space only passes the check of [editTodo]; on an id that the
    collection has, the call completes, the collection then has a Todo with
    that id and the empty title, and every later [addTodo] throws the
    duplicate-empty-entry error. *)
Theorem blank_edit_blocks_add (σ : State) (l : list Todo) (i : Z) (title_ : string) :
  todos σ = Some l → title_ ≠ "" → JSString.trim title_ = "" →
  (∃ x, x ∈ l ∧ id x = i) →
  ∃ (σ1 : State) (l1 : list Todo),
    editTodo i title_ σ = (Normal tt, σ1) ∧
    todos σ1 = Some l1 ∧ {| id := i; title := "" |} ∈ l1 ∧
    ∀ title2, addTodo title2 σ1 = (Throw DuplicateEmptyEntry, σ1).
Proof.
  intros Hl Hne Hblank Hex.
  destruct (state_editTodo σ l i title_ Hl Hne)
    as [(Hnone & _)|(_ & σ1 & l1 & Hrun & Hl1 & (_ & _ & Hin) & _)]; [done|].
  rewrite Hblank in Hin.
  exists σ1, l1. do 3 (split; [done|]). intros title2.
  eapply state_addTodo_fail; [exact Hl1|].
  by apply (empty_title_blocks _ {| id := i; title := "" |}).
Qed.

(** X7. A deleted id is gone.  After [deleteTodo(id)] no Todo has the id, also
    when several had it, and an [editTodo] for the id throws the not-found
    error and leaves the collection. *)
Theorem delete_then_edit_not_found (σ : State) (l : list Todo) (i : Z) (title_ : string) :
  todos σ = Some l → title_ ≠ "" →
  ∃ (σ1 σ2 : State) (l1 : list Todo),
    deleteTodo i σ = (Normal tt, σ1) ∧
    todos σ1 = Some l1 ∧ Forall (λ t, id t ≠ i) l1 ∧
    editTodo i title_ σ1 = (Throw (NotFound i), σ2) ∧
    todos σ2 = Some l1 ∧ localStorage σ2 = localStorage σ1.
Proof.
  intros Hl Hne.
  destruct (state_deleteTodo σ l i Hl) as (σ1 & Hdel & Hl1 & _).
  set (l1 := List.filter (λ x, negb (bool_decide (id x = i))) l) in *.
  assert (Forall (λ t, id t ≠ i) l1) as Hgone.
  { apply Forall_forall. intros t [_ Ht]%filter_elem_of.
    by apply negb_true_iff, bool_decide_eq_false in Ht. }
  destruct (state_editTodo σ1 l1 i title_ Hl1 Hne)
    as [(_ & σ2 & Hrun & Hl2 & Hls)|((x & Hx & Hid) & _)].
  - by exists σ1, σ2, l1.
  - rewrite Forall_forall in Hgone. by apply Hgone in Hx.
Qed.

(** X8. The service writes one key.  Whatever a mutation does, every item of
    the storage under a key other than [TODOS] is as before; a mutation that
    throws leaves the whole storage as before. *)
Theorem other_storage_keys_untouched (op : Mutation) (σ : State) (l : list Todo) :
  todos σ = Some l →
  (∀ k, k ≠ TODOS → localStorage (perform op σ).2 !! k = localStorage σ !! k) ∧
  (∀ e, (perform op σ).1 = Throw e → localStorage (perform op σ).2 = localStorage σ).
Proof.
  intros Hl.
  destruct (state_perform op σ l Hl) as (c & σ' & l' & -> & Hl' & Hcase). simpl.
  destruct Hcase as [(e & -> & _ & Hls)|(-> & _ & Hls)]; rewrite Hls.
  - done.
  - split; [|done]. intros k Hk. by apply lookup_insert_ne.
Qed.

(** ** Storage and construction *)

(** X9. What [_commit] writes, [_init] reads back.  On any collection, empty
    or not, [_commit] followed by [_init] completes and gives the same ids
    and titles in the same order, held by new objects: the objects of the old
    collection are not touched and not shared. *)
Theorem commit_then_init_restores (σ : State) (l : list Todo) :
  todos σ = Some l →
  ∃ (σ1 σ2 : State),
    _commit σ = (Normal tt, σ1) ∧
    localStorage σ1 = <[TODOS := JSON.stringify l]> (localStorage σ) ∧
    _init σ1 = (Normal tt, σ2) ∧
    todos σ2 = Some l ∧
    objects σ2 = objects σ ++ l ∧
    arrays σ2 !! _todos σ2 = Some (seq (length (objects σ)) (length l)) ∧
    localStorage σ2 = localStorage σ1.
Proof.
  intros (objs & arrs & ls & td & ts & -> & Htd & Hts & ->)%todos_inv.
  do 2 eexists. split; [by apply run__commit|]. simpl. split; [done|].
  split.
  { apply run__init. rewrite lookup_insert_eq, or_else_stringify. apply parse_stringify. }
  simpl. split.
  { pose proof (todos_mkState (objs ++ map snd ts)
                  (arrs ++ [map fst (zip (seq (length objs) (length (map snd ts)))
                                         (map snd ts))])
                  (<[TODOS := JSON.stringify (map snd ts)]> ls) (length arrs)
                  (zip (seq (length objs) (length (map snd ts))) (map snd ts))
                  (lookup_snoc _ _) (points_to_seq _ _)) as Hz.
    by rewrite zip_seq_snd in Hz. }
  rewrite zip_seq_fst. split; [done|]. split; [apply lookup_snoc|done].
Qed.

(** X10. The seed array is not copied.  A service constructed with an array
    on a storage without Todos keeps that very array as its collection: when
    the caller afterwards puts other objects in its array, the collection of
    the service is those objects, and the storage still holds what the
    constructor wrote. *)
Theorem seed_array_is_the_collection (σ : State) (seed : loc)
    (ss ts : list (loc * Todo)) :
  JSON.parse (or_else (localStorage σ !! TODOS) "[]") = Some [] →
  elements_in σ seed = Some ss →
  Forall (points_to (objects σ)) ts →
  ∃ (σ1 σ2 : State),
    TodoService_new (Some seed) σ = (Normal tt, σ1) ∧
    todos σ1 = Some (map snd ss) ∧
    set_array seed (map fst ts) σ1 = (Normal tt, σ2) ∧
    todos σ2 = Some (map snd ts) ∧
    localStorage σ2 !! TODOS = Some (JSON.stringify (map snd ss)).
Proof.
  destruct σ as [objs arrs ls td]. simpl.
  intros Hparse [Hs Hss]%elements_in_inv Hts. simpl in Hs, Hss.
  do 2 eexists. split; [by apply run_TodoService_new_seed|].
  split; [apply todos_mkState; [by apply lookup_app_l_Some|done]|].
  split; [apply run_set_array|].
  split; [|apply lookup_insert_eq].
  apply todos_mkState; [|done].
  apply list_lookup_insert_eq. rewrite length_app. apply lookup_lt_Some in Hs. lia.
Qed.

(** ** Trimmed titles *)

Section trim.
Local Arguments String.append : simpl nomatch.

Lemma rev_app_append (s1 s2 : string) :
  String.rev_app s1 s2 = String.rev s1 +:+ s2.
Proof.
  unfold String.rev. revert s2. induction s1 as [|c s1 IH]; intros s2; simpl; [done|].
  rewrite IH, (IH (String c "")). by rewrite append_assoc.
Qed.

Lemma rev_cons (c : ascii) (s : string) :
  String.rev (String c s) = String.rev s +:+ String c "".
Proof. unfold String.rev at 1. simpl. apply rev_app_append. Qed.

Lemma append_empty_r (s : string) : s +:+ "" = s.
Proof. induction s as [|c s IH]; simpl; [done|]. by rewrite IH. Qed.

Lemma rev_append (s1 s2 : string) :
  String.rev (s1 +:+ s2) = String.rev s2 +:+ String.rev s1.
Proof.
  induction s1 as [|c s1 IH]; simpl.
  - change (String.rev "") with "". by rewrite append_empty_r.
  - by rewrite !rev_cons, IH, append_assoc.
Qed.

Lemma rev_involutive (s : string) : String.rev (String.rev s) = s.
Proof.
  induction s as [|c s IH]; [done|].
  rewrite rev_cons, rev_append, IH. done.
Qed.

Lemma trimStart_starts_clean (s : string) : starts_clean (JSString.trimStart s) = true.
Proof.
  induction s as [|c s IH]; simpl; [done|].
  destruct (JSString.isWhiteSpace c) eqn:E; [done|]. simpl. by rewrite E.
Qed.

Lemma trimStart_suffix (s : string) : ∃ w, s = w +:+ JSString.trimStart s.
Proof.
  induction s as [|c s [w IH]]; simpl; [by exists ""|].
  destruct (JSString.isWhiteSpace c).
  - exists (String c w). simpl. by rewrite <- IH.
  - by exists "".
Qed.

Lemma trimStart_clean (s : string) : starts_clean s = true → JSString.trimStart s = s.
Proof. destruct s as [|c s]; simpl; [done|]. by intros ->%negb_true_iff. Qed.

Lemma starts_clean_prefix (s w : string) :
  s ≠ "" → starts_clean (s +:+ w) = true → starts_clean s = true.
Proof. by destruct s. Qed.

Lemma trim_clean (s : string) : clean (JSString.trim s).
Proof.
  unfold clean, JSString.trim, JSString.trimEnd.
  rewrite rev_involutive. split; [|apply trimStart_starts_clean].
  destruct (trimStart_suffix (String.rev (JSString.trimStart s))) as [w Hw].
  apply (f_equal String.rev) in Hw. rewrite rev_involutive, rev_append in Hw.
  destruct (String.rev (JSString.trimStart (String.rev (JSString.trimStart s))))
    as [|c r] eqn:E; [done|].
  apply (starts_clean_prefix _ (String.rev w)); [done|]. rewrite <- Hw.
  apply trimStart_starts_clean.
Qed.

Lemma trim_of_clean (s : string) : clean s → JSString.trim s = s.
Proof.
  intros [H1 H2]. unfold JSString.trim, JSString.trimEnd.
  by rewrite (trimStart_clean s H1), (trimStart_clean _ H2), rev_involutive.
Qed.
End trim.

(** X11. Titles are stored trimmed.  The title a [Todo] is constructed with
    neither starts nor ends with white space, and constructing a Todo from
    the title of one gives the same title; [addTodo] stores such a title in
    the Todo it appends. *)
Theorem stored_titles_are_trimmed (σ : State) (l : list Todo) (i : Z) (title_ : string) :
  clean (title (Todo_new i title_)) ∧
  Todo_new i (title (Todo_new i title_)) = Todo_new i title_ ∧
  (todos σ = Some l → Forall (λ t, title t ≠ "") l →
   ∃ σ' t, addTodo title_ σ = (Normal tt, σ') ∧ todos σ' = Some (l ++ [t]) ∧
           clean (title t)).
Proof.
  split; [apply trim_clean|]. split.
  { unfold Todo_new. simpl. f_equal. apply trim_of_clean, trim_clean. }
  intros Hl Htitles.
  destruct (state_addTodo_ok σ l title_ Hl (no_empty_title l Htitles))
    as (σ' & Hadd & Hl' & _).
  exists σ', (Todo_new (fresh_id l) title_). do 2 (split; [done|]). apply trim_clean.
Qed.

(** ** The page *)

Lemma rows_elements (ts : list (loc * Todo)) :
  map (λ rt : loc * Todo, (id rt.2, title rt.2)) ts = rows (map snd ts).
Proof. unfold rows. by rewrite map_map. Qed.

Lemma display_run (σ : State) doc sd src tl al ln (l : list Todo) :
  todos σ = Some l →
  ∃ σ', displayTodos (mkPage σ doc sd src tl al ln)
        = (Normal tt, mkPage σ' doc sd src (rows l) al ln) ∧
        todos σ' = Some l ∧ localStorage σ' = localStorage σ.
Proof.
  intros (objs & arrs & ls & td & ts & -> & Htd & Hts & ->)%todos_inv.
  eexists. split; [|split].
  - rewrite <- rows_elements. by apply run_displayTodos.
  - apply todos_mkState; [by apply lookup_app_l_Some|done].
  - done.
Qed.

(** A gesture, on a well-formed page with its sort button: the listener
    completes, whatever the call into the service does, and the page is the
    one described. *)
Lemma dispatch_outcome (g : Gesture) (p : Page) (l : list Todo) :
  todos (store p) = Some l → "#sort-button" ∈ document p →
  ∃ c σ1 l' σ2,
    perform (mutation_of p g) (store p) = (c, σ1) ∧
    todos σ1 = Some l' ∧
    ((∃ e, c = Throw e ∧ l' = l ∧ localStorage σ1 = localStorage (store p)) ∨
     (c = Normal tt ∧ leaves (mutation_of p g) l l' ∧
      localStorage σ1 = <[TODOS := JSON.stringify l']> (localStorage (store p)))) ∧
    todos σ2 = Some l' ∧ localStorage σ2 = localStorage σ1 ∧
    dispatch g p
    = (Normal tt,
       mkPage σ2 (document p)
         (match g, c with
          | ClickSort, _ => negb (_sortDir p)
          | ClickAdd, Normal _ => true
          | _, _ => _sortDir p
          end)
         (match g with
          | ClickSort =>
              if negb (_sortDir p) then "./img/blackdown.svg" else "./img/blackup.svg"
          | _ => sortButtonSrc p
          end)
         (rows l')
         (alerts p ++ match c with Throw e => [message e] | Normal _ => [] end)
         (listeners p)).
Proof.
  destruct p as [σ doc sd src tl al ln]. simpl. intros Hl Hbtn.
  destruct g as [| |i value|i]; simpl.
  - destruct (state_perform (Add "") σ l Hl) as (c & σ1 & l' & Hrun & Hl' & Hcase).
    simpl in Hrun.
    destruct Hcase as [(e & -> & -> & Hls)|(-> & Hleaves & Hls)].
    + destruct (display_run σ1 doc sd src tl (al ++ [message e]) ln l Hl')
        as (σ2 & Hdisplay & Hl2 & Hls2).
      exists (Throw e), σ1, l, σ2. split; [done|]. split; [done|].
      split; [left; eauto|]. do 2 (split; [done|]).
      unfold _handleAdd. eapply try_catch_Throw.
      { apply bind_Throw. apply run_service, Hrun. }
      unfold _showError. eapply bind_Normal; [reflexivity|]. exact Hdisplay.
    + destruct (display_run σ1 doc true src tl al ln l' Hl') as (σ2 & Hdisplay & Hl2 & Hls2).
      exists (Normal tt), σ1, l', σ2. split; [done|]. split; [done|].
      split; [by right|]. do 2 (split; [done|]). rewrite app_nil_r.
      unfold _handleAdd. apply try_catch_Normal.
      eapply bind_Normal; [apply run_service, Hrun|]. cbv beta.
      eapply bind_Normal; [reflexivity|]. exact Hdisplay.
  - destruct (state_sortTodos σ l sd Hl) as (σ1 & l' & Hrun & Hleaves & Hl' & Hls).
    destruct (display_run σ1 doc (negb sd)
                (if negb sd then "./img/blackdown.svg" else "./img/blackup.svg")
                tl al ln l' Hl') as (σ2 & Hdisplay & Hl2 & Hls2).
    exists (Normal tt), σ1, l', σ2. split; [done|]. split; [done|].
    split; [by right|]. do 2 (split; [done|]). rewrite app_nil_r.
    unfold _handleSort.
    eapply bind_Normal; [reflexivity|]. cbv beta.
    eapply bind_Normal; [apply run_service, Hrun|]. cbv beta.
    eapply bind_Normal; [reflexivity|]. cbv beta.
    eapply bind_Normal; [reflexivity|]. cbv beta. simpl.
    rewrite bool_decide_eq_true_2 by done.
    eapply bind_Normal; [reflexivity|]. cbv beta.
    eapply bind_Normal; [reflexivity|]. exact Hdisplay.
  - destruct (state_perform (Edit i value) σ l Hl) as (c & σ1 & l' & Hrun & Hl' & Hcase).
    simpl in Hrun.
    destruct Hcase as [(e & -> & -> & Hls)|(-> & Hleaves & Hls)].
    + destruct (display_run σ1 doc sd src tl (al ++ [message e]) ln l Hl')
        as (σ2 & Hdisplay & Hl2 & Hls2).
      exists (Throw e), σ1, l, σ2. split; [done|]. split; [done|].
      split; [left; eauto|]. do 2 (split; [done|]).
      unfold _handleEdit. eapply try_catch_Throw.
      { apply bind_Throw. apply run_service, Hrun. }
      unfold _showError. eapply bind_Normal; [reflexivity|]. exact Hdisplay.
    + destruct (display_run σ1 doc sd src tl al ln l' Hl') as (σ2 & Hdisplay & Hl2 & Hls2).
      exists (Normal tt), σ1, l', σ2. split; [done|]. split; [done|].
      split; [by right|]. do 2 (split; [done|]). rewrite app_nil_r.
      unfold _handleEdit. apply try_catch_Normal.
      eapply bind_Normal; [apply run_service, Hrun|]. exact Hdisplay.
  - destruct (state_deleteTodo σ l i Hl) as (σ1 & Hrun & Hl' & Hls).
    destruct (display_run σ1 doc sd src tl al ln _ Hl') as (σ2 & Hdisplay & Hl2 & Hls2).
    exists (Normal tt), σ1. do 2 eexists. split; [done|]. split; [done|].
    split; [by right|]. do 2 (split; [done|]). rewrite app_nil_r.
    unfold _handleDelete.
    eapply bind_Normal; [apply run_service, Hrun|]. exact Hdisplay.
Qed.

Lemma dispatch_shows (g : Gesture) (p : Page) (l : list Todo) :
  shows p l → ∃ l', (dispatch g p).1 = Normal tt ∧ shows (after g p) l'.
Proof.
  intros (Hl & _ & Hparse & Hbtn).
  destruct (dispatch_outcome g p l Hl Hbtn)
    as (c & σ1 & l' & σ2 & _ & _ & Hcase & Hl2 & Hls2 & Hrun).
  exists l'. unfold after, shows. rewrite Hrun. simpl. split; [done|].
  split; [done|]. split; [done|]. split; [|done]. rewrite Hls2.
  destruct Hcase as [(e & _ & -> & ->)|(_ & _ & ->)]; [done|].
  rewrite lookup_insert_eq, or_else_stringify. apply parse_stringify.
Qed.

Lemma run_shows (gs : list Gesture) (p : Page) (l : list Todo) :
  shows p l → ∃ l', shows (run gs p) l'.
Proof.
  revert p l. induction gs as [|g gs IH]; intros p l Hp; [by exists l|].
  destruct (dispatch_shows g p l Hp) as (l1 & _ & Hp1).
  apply (IH (after g p) l1 Hp1).
Qed.

Lemma init_run (σ : State) doc sd src tl al ln (l : list Todo) :
  todos σ = Some l →
  Forall (λ s, s ∈ doc) ["#todo-list"; "#add-button"; "#sort-button"] →
  ∃ σ', DOMManipulator_init (mkPage σ doc sd src tl al ln)
        = (Normal tt, mkPage σ' doc true src (rows l) al
                        (ln ++ ["#add-button"; "#sort-button"])) ∧
        todos σ' = Some l ∧ localStorage σ' = localStorage σ.
Proof.
  intros Hl [H1 [H2 [H3 _]%Forall_cons]%Forall_cons]%Forall_cons.
  destruct (display_run σ doc true src tl al (ln ++ ["#add-button"; "#sort-button"]) l Hl) as (σ' & Hdisplay & Hl' & Hls).
  exists σ'. split; [|done].
  unfold DOMManipulator_init, _getElement, querySelector.
  eapply bind_Normal.
  { eapply bind_Normal; [reflexivity|]. cbv beta. simpl.
    by rewrite bool_decide_eq_true_2. }
  cbv beta. eapply bind_Normal.
  { eapply bind_Normal; [reflexivity|]. cbv beta. simpl.
    by rewrite bool_decide_eq_true_2. }
  cbv beta. eapply bind_Normal; [reflexivity|].
  cbv beta. eapply bind_Normal.
  { eapply bind_Normal; [reflexivity|]. cbv beta. simpl.
    by rewrite bool_decide_eq_true_2. }
  cbv beta. eapply bind_Normal; [reflexivity|].
  cbv beta. eapply bind_Normal; [reflexivity|].
  unfold set__sortDir, set_listeners. simpl. rewrite <- app_assoc. exact Hdisplay.
Qed.

(** The script on the page the browser hands it. *)
Lemma load_outcome (ls : gmap string string) (stored : list Todo) :
  JSON.parse (or_else (ls !! TODOS) "[]") = Some stored →
  ∃ σ,
    main (blank_page ls)
    = (Normal tt,
       mkPage σ ["#todo-list"; "#add-button"; "#sort-button"] true ""
              (rows (match stored with [] => [mkTodo 1 ""] | _ :: _ => stored end)) []
              ["#add-button"; "#sort-button"]) ∧
    todos σ = Some (match stored with [] => [mkTodo 1 ""] | _ :: _ => stored end) ∧
    localStorage σ = match stored with
                     | [] => <[TODOS := JSON.stringify [mkTodo 1 ""]]> ls
                     | _ :: _ => ls
                     end.
Proof.
  intros Hparse.
  destruct (TodoService_new_todos (mkState [mkTodo 1 ""] [[0%nat]] ls 0%nat) (Some 0%nat)
              [(0%nat, mkTodo 1 "")] stored Hparse eq_refl)
    as (σ1 & Hnew & Hl1 & Hls1).
  simpl in Hl1, Hls1.
  destruct (init_run σ1 ["#todo-list"; "#add-button"; "#sort-button"] true "" [] [] [] _ Hl1)
    as (σ2 & Hinit & Hl2 & Hls2).
  { repeat constructor; set_solver. }
  exists σ2. split; [|split; [done|by rewrite Hls2]].
  unfold main, blank_page.
  eapply bind_Normal; [apply run_service, run_array_literal|]. cbv beta.
  eapply bind_Normal; [apply run_service, Hnew|]. exact Hinit.
Qed.

(** X12. Every gesture ends with the list showing the collection.  On a page
    that shows its collection, the listener of any gesture completes without
    an exception, the collection afterwards is the old one (the call failed)
    or the one the mutation makes of it (one more Todo with the title of the
    call, the title of the Todos with the id changed, the Todos with the id
    gone, the Todos with a title in some order), and the page again shows its
    collection: the items of the list are the Todos of the store, and the
    storage reads back as them.  The document and the listeners of the
    buttons stay. *)
Theorem gesture_shows_collection (g : Gesture) (p : Page) (l : list Todo) :
  shows p l →
  ∃ (p' : Page) (l' : list Todo),
    dispatch g p = (Normal tt, p') ∧
    shows p' l' ∧
    (l' = l ∨ changes (mutation_of p g) l l') ∧
    document p' = document p ∧ listeners p' = listeners p.
Proof.
  intros (Hl & _ & Hparse & Hbtn).
  destruct (dispatch_outcome g p l Hl Hbtn)
    as (c & σ1 & l' & σ2 & _ & _ & Hcase & Hl2 & Hls2 & Hrun).
  do 2 eexists. split; [exact Hrun|]. unfold shows. simpl.
  split; [|split; [|done]].
  - do 2 (split; [done|]). split; [|done]. rewrite Hls2.
    destruct Hcase as [(e & _ & -> & ->)|(_ & _ & ->)]; [done|].
    rewrite lookup_insert_eq, or_else_stringify. apply parse_stringify.
  - destruct Hcase as [(e & _ & -> & _)|(_ & Hleaves & _)]; [by left|right].
    by apply leaves_changes.
Qed.

(** X13. A reload shows the same list.  Load the page on a storage that holds
    a Todo array with safe integers for ids, or nothing; make any gestures;
    load a page again on the storage as it then is.  The new page shows the
    Todos the old one had, in their order, unless there were none: then it
    shows the seed Todo of the script, with id 1 and the empty title. *)
Theorem reload_shows_same_list (ls : gmap string string) (stored : list Todo)
    (gs : list Gesture) :
  JSON.parse (or_else (ls !! TODOS) "[]") = Some stored →
  safe_ids stored →
  ∃ l,
    shows (run gs (loaded_page ls)) l ∧
    shows (loaded_page (localStorage (store (run gs (loaded_page ls)))))
          (match l with [] => [mkTodo 1 ""] | _ :: _ => l end).
Proof.
  intros Hparse _.
  assert (∀ ls' stored',
            JSON.parse (or_else (ls' !! TODOS) "[]") = Some stored' →
            shows (loaded_page ls')
                  (match stored' with [] => [mkTodo 1 ""] | _ :: _ => stored' end)) as Hload.
  { intros ls' stored' Hparse'.
    destruct (load_outcome ls' stored' Hparse') as (σ & Hmain & Hl & Hls).
    unfold loaded_page, shows. rewrite Hmain. simpl.
    split; [done|]. split; [done|]. split; [|set_solver].
    rewrite Hls. destruct stored'; [|done].
    rewrite lookup_insert_eq, or_else_stringify. apply parse_stringify. }
  destruct (run_shows gs (loaded_page ls) _ (Hload ls stored Hparse)) as [l Hl].
  exists l. split; [done|]. apply Hload. by destruct Hl as (_ & _ & ? & _).
Qed.

(** X14. A failed call is shown once, and only a failed call.  On a
    well-formed page the listener of a gesture completes; when the call it
    makes into the service throws, the message of the error is the one new
    alert, and the collection and the list are those before the gesture; when
    the call completes there is no alert.  The delete and sort gestures never
    alert. *)
Theorem failed_call_is_alerted (g : Gesture) (p : Page) (l : list Todo) :
  todos (store p) = Some l → "#sort-button" ∈ document p →
  ∃ p',
    dispatch g p = (Normal tt, p') ∧
    alerts p' = alerts p ++ match (perform (mutation_of p g) (store p)).1 with
                            | Throw e => [message e]
                            | Normal _ => []
                            end ∧
    (∀ e, (perform (mutation_of p g) (store p)).1 = Throw e →
          todos (store p') = Some l ∧ todoList p' = rows l ∧
          _sortDir p' = _sortDir p) ∧
    match g with
    | ClickDelete _ | ClickSort => alerts p' = alerts p
    | _ => True
    end.
Proof.
  intros Hl Hbtn.
  destruct (dispatch_outcome g p l Hl Hbtn)
    as (c & σ1 & l' & σ2 & Hperform & _ & Hcase & Hl2 & _ & Hrun).
  assert (match g with ClickDelete _ | ClickSort => c = Normal tt | _ => True end) as Hc.
  { destruct g as [| |i value|i]; try done; simpl in Hperform.
    - destruct (state_sortTodos (store p) l (_sortDir p) Hl) as (σ' & ? & Hsort & _).
      rewrite Hsort in Hperform. by injection Hperform as <- _.
    - destruct (state_deleteTodo (store p) l i Hl) as (σ' & Hdel & _).
      rewrite Hdel in Hperform. by injection Hperform as <- _. }
  eexists. split; [exact Hrun|]. rewrite Hperform. simpl. split; [done|]. split.
  - intros e ->. destruct Hcase as [(e' & _ & -> & _)|(? & _)]; [|done].
    by destruct g.
  - destruct g as [| |i value|i]; try done; subst c; apply app_nil_r.
Qed.

(** X15. The add gesture does not touch the sort icon.  After a sort
    gesture the icon of the sort button agrees with the direction of the next
    sort; an add gesture right after it succeeds and sets the direction to
    ascending, but the icon stays: when the sort was ascending, the icon
    still is the one of a descending next sort. *)
Theorem add_leaves_sort_icon (p : Page) (l : list Todo) :
  todos (store p) = Some l → "#sort-button" ∈ document p →
  _sortDir (after ClickSort p) = negb (_sortDir p) ∧
  sortButtonSrc (after ClickSort p)
  = (if _sortDir (after ClickSort p) then "./img/blackdown.svg" else "./img/blackup.svg") ∧
  _sortDir (after ClickAdd (after ClickSort p)) = true ∧
  alerts (after ClickAdd (after ClickSort p)) = alerts p ∧
  sortButtonSrc (after ClickAdd (after ClickSort p)) = sortButtonSrc (after ClickSort p).
Proof.
  intros Hl Hbtn.
  destruct (dispatch_outcome ClickSort p l Hl Hbtn)
    as (c & σ1 & l1 & σ2 & Hperform & _ & Hcase & Hl2 & _ & Hrun).
  assert (c = Normal tt ∧ leaves (Sort (_sortDir p)) l l1) as [-> Hleaves].
  { destruct Hcase as [(e & -> & _)|(-> & ? & _)]; [|done].
    simpl in Hperform.
    destruct (state_sortTodos (store p) l (_sortDir p) Hl) as (? & ? & Hsort & _).
    by rewrite Hsort in Hperform. }
  rewrite app_nil_r in Hrun.
  set (p1 := mkPage σ2 _ _ _ _ _ _) in Hrun.
  assert (after ClickSort p = p1) as -> by (unfold after; by rewrite Hrun).
  do 2 (split; [done|]).
  destruct (dispatch_outcome ClickAdd p1 l1 Hl2 Hbtn)
    as (c' & σ3 & l3 & σ4 & Hperform' & _ & _ & _ & _ & Hrun').
  simpl in Hperform'.
  destruct (state_addTodo_ok σ2 l1 "" Hl2 (sorted_has_titles _ _ _ Hleaves))
    as (? & Hadd & _).
  rewrite Hadd in Hperform'. injection Hperform' as <- _.
  unfold after. rewrite Hrun'. simpl. by rewrite app_nil_r.
Qed.

(** X16. A missing element stops the set-up.  [_init] looks for the list, the
    add button and the sort button, in this order, and throws the
    element-missing error for the first one the document lacks.  Without the
    list or without the add button the page is as it was.  Without the sort
    button the add button has been given its click listener before the
    error, and that is the one change: nothing is rendered and the sort
    direction is not set. *)
Theorem init_missing_element (p : Page) :
  ("#todo-list" ∉ document p →
   DOMManipulator_init p = (Throw (ElementMissing "#todo-list"), p)) ∧
  ("#todo-list" ∈ document p → "#add-button" ∉ document p →
   DOMManipulator_init p = (Throw (ElementMissing "#add-button"), p)) ∧
  ("#todo-list" ∈ document p → "#add-button" ∈ document p →
   "#sort-button" ∉ document p →
   DOMManipulator_init p
   = (Throw (ElementMissing "#sort-button"),
      set_listeners (listeners p ++ ["#add-button"]) p)).
Proof.
  assert (∀ s q, s ∈ document q → _getElement s q = (Normal tt, q)) as Hfound.
  { intros s q Hs. unfold _getElement, querySelector.
    eapply bind_Normal; [reflexivity|]. simpl. by rewrite bool_decide_eq_true_2. }
  assert (∀ s q, s ∉ document q → _getElement s q = (Throw (ElementMissing s), q))
    as Hmissing.
  { intros s q Hs. unfold _getElement, querySelector.
    eapply bind_Normal; [reflexivity|]. simpl. by rewrite bool_decide_eq_false_2. }
  unfold DOMManipulator_init. repeat apply conj.
  - intros H1. apply bind_Throw. by apply Hmissing.
  - intros H1 H2. eapply bind_Normal; [by apply Hfound|].
    apply bind_Throw. by apply Hmissing.
  - intros H1 H2 H3. eapply bind_Normal; [by apply Hfound|].
    eapply bind_Normal; [by apply Hfound|].
    eapply bind_Normal; [reflexivity|].
    apply bind_Throw. by apply Hmissing.
Qed.

(** X17. What a loaded page shows.  On a storage that holds a Todo array,
    with safe integers for ids, the script completes, the page shows those
    Todos, nothing is written, the sort direction is ascending, nothing is
    alerted and the add button and the sort button have their listeners; on
    a storage that holds no Todos (no item, an empty item, an empty array)
    the page shows the seed Todo, with id 1 and the empty title, and the
    storage holds it. *)
Theorem page_load_shows_stored_or_seed (ls : gmap string string) (stored : list Todo) :
  JSON.parse (or_else (ls !! TODOS) "[]") = Some stored →
  safe_ids stored →
  (main (blank_page ls)).1 = Normal tt ∧
  todos (store (loaded_page ls))
  = Some (match stored with [] => [mkTodo 1 ""] | _ :: _ => stored end) ∧
  todoList (loaded_page ls)
  = rows (match stored with [] => [mkTodo 1 ""] | _ :: _ => stored end) ∧
  localStorage (store (loaded_page ls))
  = match stored with
    | [] => <[TODOS := JSON.stringify [mkTodo 1 ""]]> ls
    | _ :: _ => ls
    end ∧
  _sortDir (loaded_page ls) = true ∧
  alerts (loaded_page ls) = [] ∧
  listeners (loaded_page ls) = ["#add-button"; "#sort-button"].
Proof.
  intros Hparse _.
  destruct (load_outcome ls stored Hparse) as (σ & Hmain & Hl & Hls).
  unfold loaded_page. by rewrite Hmain.
Qed.

(** ** The further properties at work *)

Lemma loaded_page_shows : shows (loaded_page ∅) [mkTodo 1 ""].
Proof.
  split; [vm_compute; reflexivity|]. split; [vm_compute; reflexivity|].
  split; [vm_compute; reflexivity|]. apply list_elem_of_In. vm_compute.
  do 2 right. left. reflexivity.
Defined.

Lemma unique_ids_kept_witness :
  ∃ l', todos (perform (Add "x") (service_of [mkTodo 1 "a"; mkTodo 5 "b"])).2 = Some l' ∧
        NoDup (map id l').
Proof.
  apply (unique_ids_kept (Add "x") (service_of [mkTodo 1 "a"; mkTodo 5 "b"])
           [mkTodo 1 "a"; mkTodo 5 "b"]);
    [vm_compute; reflexivity|repeat constructor; unfold safe_integer; simpl; lia|].
  apply (bool_decide_unpack _). vm_compute. exact I.
Defined.

Lemma positive_ids_kept_witness :
  ∃ l', todos (perform (Sort false) (service_of [mkTodo 1 "a"; mkTodo 5 "b"])).2 = Some l' ∧
        Forall (λ t, 0 < id t) l'.
Proof.
  apply (positive_ids_kept (Sort false) (service_of [mkTodo 1 "a"; mkTodo 5 "b"])
           [mkTodo 1 "a"; mkTodo 5 "b"]); [vm_compute; reflexivity|].
  repeat constructor.
Defined.

Lemma deleted_greatest_id_is_reused_witness :
  ∃ σ1 σ2 l1 i,
    deleteTodo 2 (service_of [mkTodo 1 "a"; mkTodo 2 "b"]) = (Normal tt, σ1) ∧
    todos σ1 = Some l1 ∧ (mkTodo 2 "b" ∉ l1) ∧
    addTodo "c" σ1 = (Normal tt, σ2) ∧
    todos σ2 = Some (l1 ++ [ {| id := i; title := JSString.trim "c" |} ]) ∧
    i ≤ 2.
Proof.
  apply (deleted_greatest_id_is_reused (service_of [mkTodo 1 "a"; mkTodo 2 "b"])
           [mkTodo 1 "a"; mkTodo 2 "b"] (mkTodo 2 "b") "c").
  - vm_compute. reflexivity.
  - repeat constructor; discriminate.
  - apply list_elem_of_In. simpl. tauto.
  - repeat constructor; simpl; lia.
  - simpl. lia.
Defined.

Lemma sort_then_add_succeeds_witness :
  ∃ σ1 σ2 l1 i,
    sortTodos true (service_of [mkTodo 1 "b"; mkTodo 2 ""]) = (Normal tt, σ1) ∧
    todos σ1 = Some l1 ∧ Forall (λ t, title t ≠ "") l1 ∧
    addTodo " c " σ1 = (Normal tt, σ2) ∧
    todos σ2 = Some (l1 ++ [ {| id := i; title := JSString.trim " c " |} ]).
Proof.
  apply (sort_then_add_succeeds (service_of [mkTodo 1 "b"; mkTodo 2 ""])
           [mkTodo 1 "b"; mkTodo 2 ""] true " c ").
  vm_compute. reflexivity.
Defined.

Lemma blank_add_blocks_add_witness :
  ∃ σ1 i, addTodo "  " (service_of [mkTodo 1 "a"]) = (Normal tt, σ1) ∧
          todos σ1 = Some ([mkTodo 1 "a"] ++ [mkTodo i ""]) ∧
          ∀ title2, addTodo title2 σ1 = (Throw DuplicateEmptyEntry, σ1).
Proof.
  apply (blank_add_blocks_add (service_of [mkTodo 1 "a"]) [mkTodo 1 "a"] "  ").
  - vm_compute. reflexivity.
  - repeat constructor; discriminate.
  - reflexivity.
Defined.

Lemma blank_edit_blocks_add_witness :
  ∃ σ1 l1, editTodo 1 " " (service_of [mkTodo 1 "a"]) = (Normal tt, σ1) ∧
           todos σ1 = Some l1 ∧ {| id := 1; title := "" |} ∈ l1 ∧
           ∀ title2, addTodo title2 σ1 = (Throw DuplicateEmptyEntry, σ1).
Proof.
  apply (blank_edit_blocks_add (service_of [mkTodo 1 "a"]) [mkTodo 1 "a"] 1 " ").
  - vm_compute. reflexivity.
  - discriminate.
  - reflexivity.
  - exists (mkTodo 1 "a"). split; [|reflexivity]. apply list_elem_of_In. simpl. tauto.
Defined.

Lemma delete_then_edit_not_found_witness :
  ∃ σ1 σ2 l1,
    deleteTodo 1 (service_of [mkTodo 1 "a"; mkTodo 1 "b"; mkTodo 2 "c"]) = (Normal tt, σ1) ∧
    todos σ1 = Some l1 ∧ Forall (λ t, id t ≠ 1) l1 ∧
    editTodo 1 "x" σ1 = (Throw (NotFound 1), σ2) ∧
    todos σ2 = Some l1 ∧ localStorage σ2 = localStorage σ1.
Proof.
  apply (delete_then_edit_not_found
           (service_of [mkTodo 1 "a"; mkTodo 1 "b"; mkTodo 2 "c"])
           [mkTodo 1 "a"; mkTodo 1 "b"; mkTodo 2 "c"] 1 "x").
  - vm_compute. reflexivity.
  - discriminate.
Defined.

Lemma other_storage_keys_untouched_witness :
  localStorage (perform (Delete 1)
                  (set_localStorage {[ "theme" := "dark" ]} (service_of [mkTodo 1 "a"]))).2
    !! "theme" = Some "dark".
Proof.
  destruct (other_storage_keys_untouched (Delete 1)
              (set_localStorage {[ "theme" := "dark" ]} (service_of [mkTodo 1 "a"]))
              [mkTodo 1 "a"]) as [Hkeys _]; [vm_compute; reflexivity|].
  rewrite Hkeys; [reflexivity|discriminate].
Defined.

Lemma commit_then_init_restores_witness :
  ∃ σ1 σ2,
    _commit (service_of [mkTodo 3 " a "; mkTodo 1 ""]) = (Normal tt, σ1) ∧
    _init σ1 = (Normal tt, σ2) ∧
    todos σ2 = Some [mkTodo 3 " a "; mkTodo 1 ""].
Proof.
  destruct (commit_then_init_restores (service_of [mkTodo 3 " a "; mkTodo 1 ""])
              [mkTodo 3 " a "; mkTodo 1 ""])
    as (σ1 & σ2 & Hcommit & _ & Hinit & Hl & _); [vm_compute; reflexivity|].
  exists σ1, σ2. split; [exact Hcommit|]. split; [exact Hinit|exact Hl].
Defined.

Lemma seed_array_is_the_collection_witness :
  ∃ σ1 σ2,
    TodoService_new (Some 0%nat)
      (mkState [mkTodo 1 "a"; mkTodo 2 "b"] [[0%nat]] ∅ 0%nat) = (Normal tt, σ1) ∧
    todos σ1 = Some [mkTodo 1 "a"] ∧
    set_array 0%nat [1%nat] σ1 = (Normal tt, σ2) ∧
    todos σ2 = Some [mkTodo 2 "b"] ∧
    localStorage σ2 !! TODOS = Some (JSON.stringify [mkTodo 1 "a"]).
Proof.
  apply (seed_array_is_the_collection
           (mkState [mkTodo 1 "a"; mkTodo 2 "b"] [[0%nat]] ∅ 0%nat) 0%nat
           [(0%nat, mkTodo 1 "a")] [(1%nat, mkTodo 2 "b")]).
  - vm_compute. reflexivity.
  - vm_compute. reflexivity.
  - repeat constructor.
Defined.

Lemma stored_titles_are_trimmed_witness :
  clean (title (Todo_new 1 "  a b  ")) ∧
  ∃ σ' t, addTodo "  a b  " (service_of [mkTodo 1 "x"]) = (Normal tt, σ') ∧
          todos σ' = Some ([mkTodo 1 "x"] ++ [t]) ∧ clean (title t).
Proof.
  destruct (stored_titles_are_trimmed (service_of [mkTodo 1 "x"]) [mkTodo 1 "x"] 1 "  a b  ")
    as (Hclean & _ & Hadd).
  split; [exact Hclean|]. apply Hadd; [vm_compute; reflexivity|].
  repeat constructor; discriminate.
Defined.

Lemma gesture_shows_collection_witness :
  ∃ p' l', dispatch (ChangeInput 1 "a") (loaded_page ∅) = (Normal tt, p') ∧ shows p' l' ∧
           listeners p' = ["#add-button"; "#sort-button"].
Proof.
  destruct (gesture_shows_collection (ChangeInput 1 "a") (loaded_page ∅) [mkTodo 1 ""]
              loaded_page_shows) as (p' & l' & Hrun & Hshows & _ & _ & Hlisteners).
  exists p', l'. split; [exact Hrun|]. split; [exact Hshows|exact Hlisteners].
Defined.

Lemma reload_shows_same_list_witness :
  ∃ l, shows (run [ChangeInput 1 "a"; ClickAdd] (loaded_page ∅)) l ∧
       shows (loaded_page
                (localStorage (store (run [ChangeInput 1 "a"; ClickAdd] (loaded_page ∅)))))
             (match l with [] => [mkTodo 1 ""] | _ :: _ => l end).
Proof.
  apply (reload_shows_same_list ∅ [] [ChangeInput 1 "a"; ClickAdd]).
  - vm_compute. reflexivity.
  - constructor.
Defined.

Lemma failed_call_is_alerted_witness :
  ∃ p', dispatch (ChangeInput 7 "x") (loaded_page ∅) = (Normal tt, p') ∧
        alerts p' = [message (NotFound 7)] ∧
        todos (store p') = Some [mkTodo 1 ""].
Proof.
  destruct (failed_call_is_alerted (ChangeInput 7 "x") (loaded_page ∅) [mkTodo 1 ""])
    as (p' & Hrun & Halerts & Hkept & _).
  - vm_compute. reflexivity.
  - apply list_elem_of_In. vm_compute. do 2 right. left. reflexivity.
  - exists p'. split; [exact Hrun|]. split; [exact Halerts|].
    apply (Hkept (NotFound 7)). vm_compute. reflexivity.
Defined.

Lemma add_leaves_sort_icon_witness :
  _sortDir (after ClickAdd (after ClickSort (loaded_page ∅))) = true ∧
  sortButtonSrc (after ClickAdd (after ClickSort (loaded_page ∅))) = "./img/blackup.svg".
Proof.
  destruct (add_leaves_sort_icon (loaded_page ∅) [mkTodo 1 ""])
    as (_ & Hicon & Hdir & _ & Hsame).
  - vm_compute. reflexivity.
  - apply list_elem_of_In. vm_compute. do 2 right. left. reflexivity.
  - split; [exact Hdir|]. rewrite Hsame, Hicon. vm_compute. reflexivity.
Defined.

(** A document without the list, one without the add button, one without the
    sort button: only the last set-up leaves a listener behind. *)
Lemma init_missing_element_witness :
  DOMManipulator_init (mkPage (mkState [] [] ∅ 0%nat) ["#add-button"; "#sort-button"]
                              false "" [] [] [])
  = (Throw (ElementMissing "#todo-list"),
     mkPage (mkState [] [] ∅ 0%nat) ["#add-button"; "#sort-button"] false "" [] [] []) ∧
  DOMManipulator_init (mkPage (mkState [] [] ∅ 0%nat) ["#todo-list"; "#sort-button"]
                              false "" [] [] [])
  = (Throw (ElementMissing "#add-button"),
     mkPage (mkState [] [] ∅ 0%nat) ["#todo-list"; "#sort-button"] false "" [] [] []) ∧
  DOMManipulator_init (mkPage (mkState [] [] ∅ 0%nat) ["#todo-list"; "#add-button"]
                              false "" [] [] [])
  = (Throw (ElementMissing "#sort-button"),
     mkPage (mkState [] [] ∅ 0%nat) ["#todo-list"; "#add-button"] false "" [] []
            ["#add-button"]).
Proof.
  split; [|split].
  - apply (init_missing_element
             (mkPage (mkState [] [] ∅ 0%nat) ["#add-button"; "#sort-button"]
                     false "" [] [] [])).
    intros H. apply list_elem_of_In in H. simpl in H.
    destruct H as [H|[H|[]]]; discriminate H.
  - apply (init_missing_element
             (mkPage (mkState [] [] ∅ 0%nat) ["#todo-list"; "#sort-button"]
                     false "" [] [] [])).
    + apply list_elem_of_In. simpl. tauto.
    + intros H. apply list_elem_of_In in H. simpl in H.
      destruct H as [H|[H|[]]]; discriminate H.
  - apply (init_missing_element
             (mkPage (mkState [] [] ∅ 0%nat) ["#todo-list"; "#add-button"]
                     false "" [] [] [])).
    + apply list_elem_of_In. simpl. tauto.
    + apply list_elem_of_In. simpl. tauto.
    + intros H. apply list_elem_of_In in H. simpl in H.
      destruct H as [H|[H|[]]]; discriminate H.
Defined.

Lemma page_load_shows_stored_or_seed_witness :
  todos (store (loaded_page {[ TODOS := JSON.stringify [mkTodo 4 "x"; mkTodo 2 "y"] ]}))
  = Some [mkTodo 4 "x"; mkTodo 2 "y"] ∧
  todos (store (loaded_page {[ TODOS := "" ]})) = Some [mkTodo 1 ""].
Proof.
  split.
  - apply (page_load_shows_stored_or_seed
             {[ TODOS := JSON.stringify [mkTodo 4 "x"; mkTodo 2 "y"] ]}
             [mkTodo 4 "x"; mkTodo 2 "y"]).
    + vm_compute. reflexivity.
    + repeat constructor; unfold safe_integer; simpl; lia.
  - apply (page_load_shows_stored_or_seed {[ TODOS := "" ]} []).
    + vm_compute. reflexivity.
    + constructor.
Defined.
